(** * DebugConsole: transaction-correlated peer diagnostics

    A shallow embedding of the [DebugConsole] object of the tubertc client
    (the transaction-id allocator, the transaction registry, the inbound
    message dispatcher [Listener.handlePeerMessage], and the two public
    entry points [Client.getP2PDiagnosticForPeerId] and
    [Client.getP2PDiagnostics]), with the properties of its natural-language
    specification stated and proved over it; then the remaining queries of
    the console, the [Chat] panel and the stateful buttons of the navigation
    bar, with properties read off their code. *)

From Stdlib Require Import ZArith Lia.
From stdpp Require Import base option list gmap strings pretty.

Local Open Scope Z_scope.

(** ** Data model *)

(** Values that travel in a peer message.  A number is carried as the
    integer it denotes; numbers that are not integers (fractions, NaN, the
    infinities) are not represented: as a transaction id such a number names
    a registry key that no allocation produces.  A JavaScript object is a
    finite map from property names to values, and reading an absent property
    yields [VUndefined]. *)
#[warnings="-register-all"]
Inductive value : Type :=
  | VUndefined
  | VNull
  | VBool (b : bool)
  | VNum (n : Z)
  | VStr (s : string)
  | VArr (elems : list value)
  | VObj (props : gmap string value).

Abbreviation object := (gmap string value).

(** [o.k] for a property name [k]. *)
Definition prop (o : object) (k : string) : value := default VUndefined (o !! k).

(** [v !== undefined] *)
Definition defined (v : value) : bool :=
  match v with VUndefined => false | _ => true end.

(** [typeof v === 'number'], returning the number. *)
Definition number_of (v : value) : option Z :=
  match v with VNum n => Some n | _ => None end.

(** The transport collaborator ([VTCClient]): the local peer's identifier and
    its connection status towards a peer.  [sendPeerMessage] is an effect and
    appears as an event below. *)
Record VTCClient : Type := {
  getId : string;
  getConnectStatus : string -> value
}.

(** The object stored by [setVtcObject]: [roomList] holds the keys of the
    source's [roomList] object, in [Object.keys] order. *)
Record vtcObj : Type := {
  roomList : list string;
  client : VTCClient
}.

(** Function objects.  A caller-supplied function is opaque and identified by
    a name; calling it is recorded as an event and is assumed to return
    normally without touching the console.  [AppendDataFn] is the closure
    created by [getP2PDiagnostics]: it captures a reference to the shared
    [results] array, [roomSize] and [completionFn]. *)
Definition fnId := nat.
Definition arrayRef := nat.
Bind Scope nat_scope with fnId arrayRef.

Inductive callback : Type :=
  | UserFn (f : fnId)
  | AppendDataFn (results : arrayRef) (roomSize : nat) (completionFn : fnId).

#[global] Instance callback_eq_dec : EqDecision callback.
Proof. solve_decision. Defined.

(** The mutable state of the [DebugConsole] singleton, together with the
    store of [results] arrays its closures share. *)
Record state : Type := {
  _txid : Z;
  _transactionMap : gmap Z callback;
  _vtcObj : option vtcObj;
  arrays : list (list value)
}.

Definition initial : state :=
  {| _txid := 0; _transactionMap := ∅; _vtcObj := None; arrays := [] |}.

(** Diagnostics written through [ErrorMetric.log]; each constructor stands
    for the consecutive lines one branch writes. *)
Inductive diagnostic : Type :=
  | RequestHandled (peerId : string)
  | InvalidId (id : Z)
  | UnsupportedOpcode (opcode : string)
  | WrongOpcodeType (content : object).

(** Observable effects, in program order. *)
Inductive event : Type :=
  | ErrorMetricLog (d : diagnostic)
  | ConsoleUsage (fn : string)
  | SendPeerMessage (rtcId : string) (msgType : string) (msg : object)
  | Invoke (transaction : callback) (arg : value)
  | Complete (results : arrayRef) (completionFn : fnId) (arg : value).

(** ** The effect monad: state, an event log, and [TypeError] *)

Inductive outcome (A : Type) : Type :=
  | Returned (a : A) (st : state) (evs : list event)
  | Thrown.
Arguments Returned {A} a st evs.
Arguments Thrown {A}.

Definition M (A : Type) : Type := state -> outcome A.

#[global] Instance M_ret : MRet M := fun A a st => Returned a st [].
#[global] Instance M_bind : MBind M := fun A B f m st =>
  match m st with
  | Returned a st1 evs1 =>
      match f a st1 with
      | Returned b st2 evs2 => Returned b st2 (evs1 ++ evs2)
      | Thrown => Thrown
      end
  | Thrown => Thrown
  end.

Definition emit (e : event) : M unit := fun st => Returned tt st [e].
Definition gets {A} (f : state -> A) : M A := fun st => Returned (f st) st [].
Definition modify (f : state -> state) : M unit := fun st => Returned tt (f st) [].

(** ** Numbers *)

(** Rounding of an integer to the nearest IEEE-754 double (53-bit
    significand, ties to even); integers of magnitude up to [2^53] are
    exact.  Overflow to infinity (beyond [2^1024]) is not represented. *)
Definition round_double (z : Z) : Z :=
  let a := Z.abs z in
  if a <? 2 ^ 53 then z
  else
    let s := Z.log2 a - 52 in
    let q := Z.shiftr a s in
    let r := a - Z.shiftl q s in
    let half := Z.shiftl 1 (s - 1) in
    let q' := if r <? half then q
              else if half <? r then q + 1
              else if Z.even q then q else q + 1 in
    Z.sgn z * Z.shiftl q' s.

(** ** The DebugConsole *)

(** [_getTxid: function() { return this._txid++; }] *)
Definition _getTxid : M Z := fun st =>
  Returned (_txid st)
    {| _txid := round_double (_txid st + 1);
       _transactionMap := _transactionMap st;
       _vtcObj := _vtcObj st;
       arrays := arrays st |} [].

(** [this._transactionMap[id] = completionFn] *)
Definition _registerTransaction (id : Z) (completionFn : callback) : M unit :=
  modify (fun st =>
    {| _txid := _txid st;
       _transactionMap := <[id := completionFn]> (_transactionMap st);
       _vtcObj := _vtcObj st;
       arrays := arrays st |}).

(** [delete DebugConsole._transactionMap[id]] *)
Definition deleteTransaction (id : Z) : M unit :=
  modify (fun st =>
    {| _txid := _txid st;
       _transactionMap := delete id (_transactionMap st);
       _vtcObj := _vtcObj st;
       arrays := arrays st |}).

(** [this._vtcObj = client] *)
Definition setVtcObject (v : vtcObj) : M unit :=
  modify (fun st =>
    {| _txid := _txid st;
       _transactionMap := _transactionMap st;
       _vtcObj := Some v;
       arrays := arrays st |}).

(** Dereferencing [DebugConsole._vtcObj]: a property read on [null] throws. *)
Definition vtc : M vtcObj := fun st =>
  match _vtcObj st with
  | Some v => Returned v st []
  | None => Thrown
  end.

(** [Object.keys(this._vtcObj.roomList)] *)
Definition _getRoomUserList : M (list string) :=
  v ← vtc; mret (roomList v).

(** [var results = []]: a fresh array in the store. *)
Definition newArray : M arrayRef := fun st =>
  Returned (length (arrays st))
    {| _txid := _txid st;
       _transactionMap := _transactionMap st;
       _vtcObj := _vtcObj st;
       arrays := arrays st ++ [[]] |} [].

(** [results.push(data)], returning the array after the push.  A closure
    only ever holds a reference the store has ([closures_allocated]). *)
Definition push (r : arrayRef) (data : value) : M (list value) := fun st =>
  let results := (arrays st !!! r) ++ [data] in
  Returned results
    {| _txid := _txid st;
       _transactionMap := _transactionMap st;
       _vtcObj := _vtcObj st;
       arrays := <[r := results]> (arrays st) |} [].

(** Calling a registered function with one argument.  For [AppendDataFn]
    this runs the closure body of [getP2PDiagnostics]:
    [results.push(data); if (results.length === roomSize) completionFn(results)]. *)
Definition call (transaction : callback) (data : value) : M unit :=
  match transaction with
  | UserFn _ => mret tt
  | AppendDataFn r roomSize completionFn =>
      results ← push r data;
      if (length results =? roomSize)%nat
      then emit (Complete r completionFn (VArr results))
      else mret tt
  end.

(** The loop of the probe branch: one status per room member other than the
    local peer. *)
Definition connectStatuses (c : VTCClient) (room : list string) : object :=
  foldl (fun data p =>
           if negb (String.eqb p (getId c))
           then <[p := getConnectStatus c p]> data
           else data) ∅ room.

(** [Listener.handlePeerMessage(client, peerId, content)].  [content] is the
    body of the peer message, an object: the dispatcher reads its properties
    without testing [content] itself. *)
Definition handlePeerMessage (c : VTCClient) (peerId : string) (content : object)
  : M value :=
  match prop content "opcode" with
  | VStr opcode =>
      match (if String.eqb opcode "testP2PConnection"
             then number_of (prop content "id") else None) with
      | Some id =>
          room ← _getRoomUserList;
          let roomConnectStatus : object :=
            {[ "myPeerId" := VStr (getId c);
               "data" := VObj (connectStatuses c room) ]} in
          emit (ErrorMetricLog (RequestHandled peerId));;
          emit (SendPeerMessage peerId "debug"
                  {[ "id" := VNum id;
                     "opcode" := VStr "response";
                     "data" := VObj roomConnectStatus ]});;
          mret VUndefined
      | None =>
          match (if String.eqb opcode "response" && defined (prop content "data")
                 then number_of (prop content "id") else None) with
          | Some id =>
              transaction ← gets (fun st => _transactionMap st !! id);
              match transaction with
              | Some transaction =>
                  emit (Invoke transaction (prop content "data"));;
                  call transaction (prop content "data");;
                  deleteTransaction id;;
                  mret VUndefined
              | None =>
                  emit (ErrorMetricLog (InvalidId id));;
                  mret VUndefined
              end
          | None =>
              emit (ErrorMetricLog (UnsupportedOpcode opcode));;
              mret VUndefined
          end
      end
  | _ =>
      emit (ErrorMetricLog (WrongOpcodeType content));;
      mret VUndefined
  end.

(** [Client.getP2PDiagnosticForPeerId(peerId, completionFn)]; an absent
    argument is [None]. *)
Definition getP2PDiagnosticForPeerId
    (peerId : option string) (completionFn : option callback) : M value :=
  match peerId, completionFn with
  | Some peerId, Some completionFn =>
      _ ← vtc;
      txid ← _getTxid;
      emit (SendPeerMessage peerId "debug"
              {[ "opcode" := VStr "testP2PConnection"; "id" := VNum txid ]});;
      _registerTransaction txid completionFn;;
      mret VUndefined
  | _, _ =>
      emit (ConsoleUsage "getP2PDiagnosticForPeerId");;
      mret (VBool false)
  end.

(** [for (var i = 0; i < roomList.length; i++) body(roomList[i])] *)
Fixpoint forEach {A} (l : list A) (body : A -> M value) : M unit :=
  match l with
  | [] => mret tt
  | x :: l' => body x;; forEach l' body
  end.

(** [Client.getP2PDiagnostics(completionFn)] *)
Definition getP2PDiagnostics (completionFn : option fnId) : M value :=
  match completionFn with
  | None =>
      emit (ConsoleUsage "getP2PDiagnostics");;
      mret (VBool false)
  | Some completionFn =>
      v ← vtc;
      let myId := getId (client v) in
      room ← _getRoomUserList;
      let roomList := List.filter (fun elem => negb (String.eqb elem myId)) room in
      let roomSize := length roomList in
      results ← newArray;
      forEach roomList (fun p =>
        getP2PDiagnosticForPeerId (Some p)
          (Some (AppendDataFn results roomSize completionFn)));;
      mret VUndefined
  end.

(** ** Runs of the console

    The console is driven one event at a time on a single thread: an inbound
    peer message, or a call to one of the public entry points.  An uncaught
    exception aborts the event; every throwing path of the console throws
    before its first effect, so the state is the one before the event. *)
Inductive action : Type :=
  | Inbound (c : VTCClient) (peerId : string) (content : object)
  | CallDiagnosticForPeerId (peerId : option string) (completionFn : option fnId)
  | CallDiagnostics (completionFn : option fnId)
  | CallSetVtcObject (v : vtcObj).

Definition perform (a : action) : M value :=
  match a with
  | Inbound c peerId content => handlePeerMessage c peerId content
  | CallDiagnosticForPeerId peerId completionFn =>
      getP2PDiagnosticForPeerId peerId (UserFn <$> completionFn)
  | CallDiagnostics completionFn => getP2PDiagnostics completionFn
  | CallSetVtcObject v => setVtcObject v;; mret VUndefined
  end.

Fixpoint run (acts : list action) (st : state) : state * list event :=
  match acts with
  | [] => (st, [])
  | a :: acts' =>
      match perform a st with
      | Returned _ st1 evs1 =>
          let '(st2, evs2) := run acts' st1 in (st2, evs1 ++ evs2)
      | Thrown => run acts' st
      end
  end.

(** ** Concrete scenario used by the examples

    Room [{A, B, C}], local peer [A]. *)
Module Scenario.
Definition clientA : VTCClient :=
  {| getId := "A"; getConnectStatus := fun p => VStr ("connected to " +:+ p) |}.
Definition roomABC : vtcObj := {| roomList := ["A"; "B"; "C"]; client := clientA |}.
Definition roomA : vtcObj := {| roomList := ["A"]; client := clientA |}.
Definition ready (v : vtcObj) : state :=
  {| _txid := 0; _transactionMap := ∅; _vtcObj := Some v; arrays := [] |}.
Definition probe (id : Z) : object :=
  {[ "opcode" := VStr "testP2PConnection"; "id" := VNum id ]}.
Definition response (id : Z) (data : value) : object :=
  {[ "opcode" := VStr "response"; "id" := VNum id; "data" := data ]}.
Definition statusOf (peer : string) (towards : list string) : value :=
  VObj {[ "myPeerId" := VStr peer;
          "data" := VObj (list_to_map ((fun p => (p, VStr "is connected")) <$> towards)) ]}.
End Scenario.

(** ** Vocabulary of the properties *)

(** The target set of [getP2PDiagnostics]: the room without the local peer. *)
Definition targets (v : vtcObj) : list string :=
  List.filter (fun elem => negb (String.eqb elem (getId (client v)))) (roomList v).

(** The state reached by a computation that returns. *)
Definition state_after {A} (o : outcome A) (st : state) : state :=
  match o with Returned _ st' _ => st' | Thrown => st end.

Definition events_of {A} (o : outcome A) : list event :=
  match o with Returned _ _ evs => evs | Thrown => [] end.

Definition returns {A} (o : outcome A) : Prop :=
  match o with Returned _ _ _ => True | Thrown => False end.

Ltac unfold_M :=
  unfold mbind, M_bind, mret, M_ret, emit, gets, modify in *.

(** The envelope shapes the dispatcher has no branch for. *)
Definition unrecognised (content : object) : bool :=
  match prop content "opcode" with
  | VStr opcode =>
      match number_of (prop content "id") with
      | None => true
      | Some _ =>
          negb (String.eqb opcode "testP2PConnection")
          && negb (String.eqb opcode "response" && defined (prop content "data"))
      end
  | _ => true
  end.

Definition drop_reason (content : object) : diagnostic :=
  match prop content "opcode" with
  | VStr opcode => UnsupportedOpcode opcode
  | _ => WrongOpcodeType content
  end.

(** The functions the dispatcher called ([transaction(content.data)]), with
    their argument, in order. *)
Definition invoked (evs : list event) : list (callback * value) :=
  omap (fun e => match e with Invoke t arg => Some (t, arg) | _ => None end) evs.



(** The calls [completionFn(results)] made by the closure over array [r],
    with their argument, in order. *)
Definition completions (r : arrayRef) (evs : list event) : list (fnId * value) :=
  omap (fun e => match e with
                 | Complete r' f arg => if decide (r' = r) then Some (f, arg) else None
                 | _ => None
                 end) evs.

(** Whether a registered function is a closure over array [r]. *)
Definition appends_to (r : arrayRef) (c : callback) : bool :=
  match c with
  | AppendDataFn r' _ _ => bool_decide (r' = r)
  | UserFn _ => false
  end.

(** The pending transactions of the fan-out that created array [r]: the
    registry entries whose callback is a closure over [r]. *)
Definition pending (r : arrayRef) (st : state) : gmap Z callback :=
  filter (fun kc => appends_to r kc.2 = true) (_transactionMap st).

(** The console after [n] successive calls of [_getTxid]. *)
Definition after_allocations (n : N) (st : state) : state :=
  N.iter n (fun s => state_after (_getTxid s) s) st.

(** The identifier returned by call number [n], counting from 0, of a run of
    successive calls started in [st]. *)
Definition allocated (n : N) (st : state) : Z :=
  match _getTxid (after_allocations n st) with
  | Returned id _ _ => id
  | Thrown => -1
  end.

(** An invariant of the console seen from one [results] array [r], the
    closure over which has parameters [n] (its [roomSize]) and [f] (its
    [completionFn]): the counter is in the exactly represented range, the
    array exists, every registered closure over [r] is that closure, and it
    sits under an identifier already issued. *)
Record agg_inv (r : arrayRef) (n : nat) (f : fnId) (st : state) : Prop := {
  inv_txid : 0 <= _txid st <= 2 ^ 53;
  inv_alloc : (r < length (arrays st))%nat;
  inv_closure : forall x c,
    _transactionMap st !! x = Some c -> appends_to r c = true ->
    c = AppendDataFn r n f;
  inv_fresh : forall x c,
    _transactionMap st !! x = Some c -> appends_to r c = true ->
    x < _txid st
}.

(** A computation that leaves the aggregator over [r] alone: whenever it
    returns, its result satisfies [Q], the invariant still holds, and neither
    the pending transactions of [r], nor its array, nor its completions have
    moved. *)
Definition keeps (r : arrayRef) (n : nat) (f : fnId) {A} (Q : A -> Prop) (m : M A)
  : Prop :=
  forall st, agg_inv r n f st ->
    match m st with
    | Returned a st1 evs1 =>
        Q a /\ agg_inv r n f st1
        /\ pending r st1 = pending r st
        /\ arrays st1 !!! r = arrays st !!! r
        /\ completions r evs1 = []
    | Thrown => True
    end.

(** The array store after a registered function has run. *)
Definition arrays_after (transaction : callback) (data : value) (st : state)
  : list (list value) :=
  match transaction with
  | UserFn _ => arrays st
  | AppendDataFn r _ _ => <[r := (arrays st !!! r) ++ [data]]> (arrays st)
  end.

Definition completion_events (transaction : callback) (data : value) (st : state)
  : list event :=
  match transaction with
  | UserFn _ => []
  | AppendDataFn r roomSize completionFn =>
      if (length ((arrays st !!! r) ++ [data]) =? roomSize)%nat
      then [Complete r completionFn (VArr ((arrays st !!! r) ++ [data]))]
      else []
  end.

(** What one event can do to the aggregator over [r]: nothing, or resolve
    exactly one of its pending transactions, appending the payload to its
    array and completing it when the array reaches [n] entries. *)
Definition untouched (r : arrayRef) (st st1 : state) (evs1 : list event) : Prop :=
  pending r st1 = pending r st
  /\ arrays st1 !!! r = arrays st !!! r
  /\ completions r evs1 = [].

Definition resolved_one (r : arrayRef) (n : nat) (f : fnId)
    (st st1 : state) (evs1 : list event) : Prop :=
  exists data,
    size (pending r st) = S (size (pending r st1))
    /\ pending r st1 ⊆ pending r st
    /\ arrays st1 !!! r = (arrays st !!! r) ++ [data]
    /\ completions r evs1
       = if (length (arrays st1 !!! r) =? n)%nat
         then [(f, VArr (arrays st1 !!! r))] else [].

(** The probes one fan-out sends: one per target, with consecutive
    transaction ids. *)
Fixpoint probes (txid : Z) (l : list string) : list event :=
  match l with
  | [] => []
  | p :: l' =>
      SendPeerMessage p "debug"
        {[ "opcode" := VStr "testP2PConnection"; "id" := VNum txid ]}
      :: probes (txid + 1) l'
  end.

(** Every closure in the registry refers to an array of the store. *)
Definition closures_allocated (st : state) : Prop :=
  forall x r n f,
    _transactionMap st !! x = Some (AppendDataFn r n f) ->
    (r < length (arrays st))%nat.

(** Well-formed states: every closure has its array and the counter is in
    the range a double counts exactly.  Every state the console reaches is
    well formed ([reachable_wf]). *)
Definition wf (st : state) : Prop :=
  closures_allocated st /\ 0 <= _txid st <= 2 ^ 53.

Definition preserves {A} (P : state -> Prop) (m : M A) : Prop :=
  forall st, P st ->
    match m st with
    | Returned _ st1 _ => P st1
    | Thrown => True
    end.

(** Registering a user function, or a closure over an existing array. *)
Definition registrable (c : callback) (st : state) : Prop :=
  match c with
  | UserFn _ => True
  | AppendDataFn r _ _ => (r < length (arrays st))%nat
  end.

(** ** The remaining entry points of the console *)

(** [Client.remoteMute(peerId)] *)
Definition remoteMute (peerId : option string) : M value :=
  match peerId with
  | None =>
      emit (ConsoleUsage "remoteMute");;
      mret (VBool false)
  | Some peerId =>
      _ ← vtc;
      emit (SendPeerMessage peerId "mic-control" {[ "enabled" := VBool false ]});;
      mret VUndefined
  end.

(** [Client.getP2PConnectStatusTo(peerId)] *)
Definition getP2PConnectStatusTo (peerId : option string) : M value :=
  match peerId with
  | None =>
      emit (ConsoleUsage "getP2PConnectStatusTo");;
      mret (VBool false)
  | Some peerId =>
      v ← vtc;
      mret (getConnectStatus (client v) peerId)
  end.

(** Whether an envelope is a connectivity probe the dispatcher answers. *)
Definition is_probe (content : object) : bool :=
  match prop content "opcode", prop content "id" with
  | VStr opcode, VNum _ => String.eqb opcode "testP2PConnection"
  | _, _ => false
  end.

(** Whether an event of a run is an inbound response that names
    transaction [x]. *)
Definition resolves (x : Z) (a : action) : bool :=
  match a with
  | Inbound _ _ content =>
      match prop content "opcode", prop content "id" with
      | VStr opcode, VNum id =>
          String.eqb opcode "response" && defined (prop content "data")
          && (id =? x)
      | _, _ => false
      end
  | _ => false
  end.

(** Every registered identifier was issued by the allocator: it is below
    the counter, unless the counter has stopped at [2^53]. *)
Definition ids_issued (st : state) : Prop :=
  forall x, is_Some (_transactionMap st !! x) ->
    0 <= x /\ (x < _txid st \/ _txid st = 2 ^ 53).

(** The events of a run that threw.  *)
Fixpoint throws (acts : list action) (st : state) : nat :=
  match acts with
  | [] => 0%nat
  | a :: acts' =>
      match perform a st with
      | Returned _ st1 _ => throws acts' st1
      | Thrown => S (throws acts' st)
      end
  end.

(** * The chat panel

    The [Chat] class: who is in the room, which colour each peer is shown
    in, and which lines are appended to the chat history.  The DOM, the
    Handlebars templates, desktop notifications and the [ChatCommands]
    module are collaborators: a rendered template is the template's name
    with its fields, and a call to a collaborator is an event; what a
    collaborator does in turn is outside the model, and it is assumed not
    to call back into the chat or to write its fields.  The keyboard
    handlers that [initialize] binds to the text entry are not modelled.
    Peer identifiers are assumed not to be names of [Object.prototype]
    members, so that a property read on the two maps is a map lookup. *)
Module Chat.

(** The Handlebars templates, applied to their fields. *)
Inductive line : Type :=
  | notificationTmpl (room msg : string)
  | userEnteredTmpl (color user id room : string)
  | userLeftTmpl (color : string) (user : option string) (id room : string)
  | messageTmpl (color user id msg time : string)
  | msgContinueTmpl (msg : string).

(** The lines written through [ErrorMetric.log]. *)
Inductive diagnostic : Type :=
  | NoRandomColor (peerId : string)
  | EnteredWithoutUserName
  | LeftInvalidKey (userName : option string)
  | LeftWithoutUserName
  | InvalidPeerMessage (peerId : string)
  | MessageInvalidKey (peerId : string)
  | MessageWithoutUserName
  | NotificationsDenied.

(** Observable effects, in program order.  [Notification] stands for the
    body of [_notify] when notifications are shown: the desktop notification,
    the alert sound, and its closing after [ttl] seconds. *)
Inductive event : Type :=
  | AppendLine (content : line)
  | ErrorMetricLog (d : diagnostic)
  | Notification (title msg : string) (ttl : Z)
  | HandleCommand (message : string)
  | HandlePeerCommand (cmd peerId : string) (cmdData : value)
  | InitializeCommands
  | BindTextEntry
  | RequestPermission.

(** What the chat reads from outside: the n-th value of
    [Math.floor((Math.random() * 360) / 24)], the answer of
    [ChatCommands.handleCommand] to a message, and the hours, minutes and
    seconds of the n-th [new Date()]. *)
Record collaborators : Type := {
  randomHue : nat -> Z;
  handleCommand : string -> bool;
  clock : nat -> nat * nat * nat
}.

(** The instance: the closure variables [_peerIdMap], [_lastPeerIdMessage]
    and [_lastCommand], the fields of [this], and how many random numbers
    and dates have been read. *)
Record state : Type := {
  _peerIdMap : gmap string string;
  _lastPeerIdMessage : option string;
  _lastCommand : option string;
  sendMessage : option fnId;
  peerColorMap : gmap string string;
  colorsUsed : list string;
  roomName : string;
  thisPeerId : option string;
  thisUserName : option string;
  showNotifications : bool;
  randomCalls : nat;
  dateCalls : nat
}.

(** [new Chat(roomName)] *)
Definition Chat (roomName : string) : state :=
  {| _peerIdMap := ∅; _lastPeerIdMessage := None; _lastCommand := None;
     sendMessage := None; peerColorMap := ∅; colorsUsed := [];
     roomName := roomName; thisPeerId := None; thisUserName := None;
     showNotifications := false; randomCalls := 0; dateCalls := 0 |}.

Definition set_peerIdMap (f : gmap string string -> gmap string string)
    (st : state) : state :=
  {| _peerIdMap := f (_peerIdMap st);
     _lastPeerIdMessage := _lastPeerIdMessage st;
     _lastCommand := _lastCommand st; sendMessage := sendMessage st;
     peerColorMap := peerColorMap st; colorsUsed := colorsUsed st;
     roomName := roomName st; thisPeerId := thisPeerId st;
     thisUserName := thisUserName st;
     showNotifications := showNotifications st;
     randomCalls := randomCalls st; dateCalls := dateCalls st |}.

Definition set_lastPeerIdMessage (p : option string) (st : state) : state :=
  {| _peerIdMap := _peerIdMap st; _lastPeerIdMessage := p;
     _lastCommand := _lastCommand st; sendMessage := sendMessage st;
     peerColorMap := peerColorMap st; colorsUsed := colorsUsed st;
     roomName := roomName st; thisPeerId := thisPeerId st;
     thisUserName := thisUserName st;
     showNotifications := showNotifications st;
     randomCalls := randomCalls st; dateCalls := dateCalls st |}.

Definition set_lastCommand (c : option string) (st : state) : state :=
  {| _peerIdMap := _peerIdMap st;
     _lastPeerIdMessage := _lastPeerIdMessage st;
     _lastCommand := c; sendMessage := sendMessage st;
     peerColorMap := peerColorMap st; colorsUsed := colorsUsed st;
     roomName := roomName st; thisPeerId := thisPeerId st;
     thisUserName := thisUserName st;
     showNotifications := showNotifications st;
     randomCalls := randomCalls st; dateCalls := dateCalls st |}.

Definition set_colors (f : gmap string string -> gmap string string)
    (g : list string -> list string) (st : state) : state :=
  {| _peerIdMap := _peerIdMap st;
     _lastPeerIdMessage := _lastPeerIdMessage st;
     _lastCommand := _lastCommand st; sendMessage := sendMessage st;
     peerColorMap := f (peerColorMap st); colorsUsed := g (colorsUsed st);
     roomName := roomName st; thisPeerId := thisPeerId st;
     thisUserName := thisUserName st;
     showNotifications := showNotifications st;
     randomCalls := randomCalls st; dateCalls := dateCalls st |}.

Definition set_identity (peerId userName : string) (sendMessageFn : fnId)
    (st : state) : state :=
  {| _peerIdMap := _peerIdMap st;
     _lastPeerIdMessage := _lastPeerIdMessage st;
     _lastCommand := _lastCommand st; sendMessage := Some sendMessageFn;
     peerColorMap := peerColorMap st; colorsUsed := colorsUsed st;
     roomName := roomName st; thisPeerId := Some peerId;
     thisUserName := Some userName;
     showNotifications := showNotifications st;
     randomCalls := randomCalls st; dateCalls := dateCalls st |}.

Definition set_showNotifications (b : bool) (st : state) : state :=
  {| _peerIdMap := _peerIdMap st;
     _lastPeerIdMessage := _lastPeerIdMessage st;
     _lastCommand := _lastCommand st; sendMessage := sendMessage st;
     peerColorMap := peerColorMap st; colorsUsed := colorsUsed st;
     roomName := roomName st; thisPeerId := thisPeerId st;
     thisUserName := thisUserName st;
     showNotifications := b;
     randomCalls := randomCalls st; dateCalls := dateCalls st |}.

Definition set_calls (random date : nat) (st : state) : state :=
  {| _peerIdMap := _peerIdMap st;
     _lastPeerIdMessage := _lastPeerIdMessage st;
     _lastCommand := _lastCommand st; sendMessage := sendMessage st;
     peerColorMap := peerColorMap st; colorsUsed := colorsUsed st;
     roomName := roomName st; thisPeerId := thisPeerId st;
     thisUserName := thisUserName st;
     showNotifications := showNotifications st;
     randomCalls := random; dateCalls := date |}.

(** State and an event log; nothing in the modelled part of the class
    throws. *)
Definition C (A : Type) : Type := state -> A * state * list event.

#[global] Instance C_ret : MRet C := fun A a st => (a, st, []).
#[global] Instance C_bind : MBind C := fun A B f m st =>
  match m st with
  | (a, st1, evs1) =>
      match f a st1 with
      | (b, st2, evs2) => (b, st2, evs1 ++ evs2)
      end
  end.

Definition emit (e : event) : C unit := fun st => (tt, st, [e]).
Definition gets {A} (f : state -> A) : C A := fun st => (f st, st, []).
Definition modify (f : state -> state) : C unit := fun st => (tt, f st, []).

(** ['hsl(' + h + ', 100%, 25%)'] for [h = k * 24]. *)
Definition hsl (k : Z) : string :=
  "hsl(" +:+ pretty (k * 24)%Z +:+ ", 100%, 25%)".

(** The colour returned when no unused colour was found. *)
Definition black : string := "hsl(0, 0%, 0%, 1)".

(** [var s = '' + n; if (s.length === 1) s = '0' + s] *)
Definition pad (n : nat) : string :=
  let s := pretty n in
  if (String.length s =? 1)%nat then "0" +:+ s else s.

Definition timestamp (hms : nat * nat * nat) : string :=
  pad hms.1.1 +:+ ":" +:+ pad hms.1.2 +:+ ":" +:+ pad hms.2.

(** [a.splice(a.indexOf(x), 1)] when [x] occurs in [a]: the first
    occurrence is removed. *)
Fixpoint splice_first (x : string) (l : list string) : list string :=
  match l with
  | [] => []
  | y :: l' => if String.eqb y x then l' else y :: splice_first x l'
  end.

(** [userName + ...] for a [userName] that may be [undefined]. *)
Definition to_string (s : option string) : string := default "undefined" s.

Section Methods.
Context (E : collaborators).

(** [getRandomColor()] *)
Definition getRandomColor : C string := fun st =>
  (hsl (randomHue E (randomCalls st)),
   set_calls (S (randomCalls st)) (dateCalls st) st, []).

(** [getTimeStamp()] *)
Definition getTimeStamp : C string := fun st =>
  (timestamp (clock E (dateCalls st)),
   set_calls (randomCalls st) (S (dateCalls st)) st, []).

(** [this._appendLine(content)] *)
Definition _appendLine (content : line) : C unit := emit (AppendLine content).

(** The loop of [_generateUniqueColor]:
    [while (this.colorsUsed.indexOf(hsvColor) > -1 && tries > 0)
       { hsvColor = getRandomColor(); tries--; }],
    returning [tries] and [hsvColor] at its exit. *)
Fixpoint retry (tries : nat) (hsvColor : string) : C (nat * string) :=
  match tries with
  | O => mret (O, hsvColor)
  | S tries' =>
      used ← gets (fun st => bool_decide (hsvColor ∈ colorsUsed st));
      if (used : bool)
      then hsvColor' ← getRandomColor; retry tries' hsvColor'
      else mret (tries, hsvColor)
  end.

(** [this._generateUniqueColor(peerId)] *)
Definition _generateUniqueColor (peerId : string) : C string :=
  hsvColor ← getRandomColor;
  r ← retry 5 hsvColor;
  if (r.1 =? 0)%nat
  then
    emit (ErrorMetricLog (NoRandomColor peerId));;
    mret black
  else
    modify (set_colors (insert peerId r.2) (fun l => l ++ [r.2]));;
    mret r.2.

(** [this._notify(title, msg, ttl)] *)
Definition _notify (title msg : string) (ttl : option Z) : C unit :=
  show ← gets showNotifications;
  if (show : bool)
  then emit (Notification title msg (default 3 ttl))
  else mret tt.

(** [this.getPeerIdToUserNameMap()] *)
Definition getPeerIdToUserNameMap : C (gmap string string) := gets _peerIdMap.

(** [this.userEntered(peerId, userName)] *)
Definition userEntered (peerId userName : string) : C unit :=
  me ← gets thisPeerId;
  match me with
  | Some me =>
      hsvColor ← _generateUniqueColor peerId;
      room ← gets roomName;
      let content := userEnteredTmpl hsvColor userName peerId room in
      modify (set_peerIdMap (insert peerId userName));;
      (if negb (String.eqb me peerId)
       then _notify "Room Status"
              (userName +:+ " (" +:+ peerId +:+ ") has entered the room") None
       else mret tt);;
      _appendLine content
  | None => emit (ErrorMetricLog EnteredWithoutUserName)
  end.

(** [this.userLeft(peerId)] *)
Definition userLeft (peerId : string) : C unit :=
  me ← gets thisPeerId;
  match me with
  | Some me =>
      userName ← gets (fun st => _peerIdMap st !! peerId);
      hsvColor ← gets (fun st => peerColorMap st !! peerId);
      match hsvColor with
      | Some hsvColor =>
          room ← gets roomName;
          let content := userLeftTmpl hsvColor userName peerId room in
          (if negb (String.eqb me peerId)
           then _notify "Room Status"
                  (to_string userName +:+ " (" +:+ peerId
                   +:+ ") has left the room") None
           else mret tt);;
          _appendLine content;;
          modify (set_colors (delete peerId) (fun l => l));;
          used ← gets (fun st => bool_decide (hsvColor ∈ colorsUsed st));
          if (used : bool)
          then modify (set_colors (fun m => m) (splice_first hsvColor))
          else mret tt
      | None => emit (ErrorMetricLog (LeftInvalidKey userName))
      end
  | None => emit (ErrorMetricLog LeftWithoutUserName)
  end.

(** [this.addNotification(message)] *)
Definition addNotification (message : string) : C unit :=
  room ← gets roomName;
  _appendLine (notificationTmpl room message).

(** [_handleChatCommand(message)] *)
Definition _handleChatCommand (message : string) : C bool :=
  emit (HandleCommand message);;
  mret (handleCommand E message).

(** [this.addMessage(peerId, message)] *)
Definition addMessage (peerId message : string) : C unit :=
  me ← gets thisPeerId;
  match me with
  | Some _ =>
      userName ← gets (fun st => _peerIdMap st !! peerId);
      hsvColor ← gets (fun st => peerColorMap st !! peerId);
      match hsvColor, userName with
      | Some hsvColor, Some userName =>
          isCommand ← _handleChatCommand message;
          if negb isCommand
          then
            last ← gets _lastPeerIdMessage;
            content ←
              (if bool_decide (last = Some peerId)
               then mret (msgContinueTmpl message)
               else time ← getTimeStamp;
                    mret (messageTmpl hsvColor userName peerId message time));
            _appendLine content;;
            modify (set_lastPeerIdMessage (Some peerId))
          else modify (set_lastCommand (Some message))
      | _, _ => emit (ErrorMetricLog (MessageInvalidKey peerId))
      end
  | None => emit (ErrorMetricLog MessageWithoutUserName)
  end.

(** [this.handlePeerMessage(peerId, content)] *)
Definition handlePeerMessage (peerId : string) (content : object) : C unit :=
  match prop content "msg" with
  | VStr msg => addMessage peerId msg
  | _ =>
      match prop content "cmd" with
      | VStr cmd => emit (HandlePeerCommand cmd peerId (prop content "cmdData"))
      | _ => emit (ErrorMetricLog (InvalidPeerMessage peerId))
      end
  end.

(** [this.initialize(peerId, userName, sendMessageFn)], up to the binding
    of the text entry and the request for the notification permission. *)
Definition initialize (peerId userName : string) (sendMessageFn : fnId)
  : C unit :=
  modify (set_identity peerId userName sendMessageFn);;
  addNotification "Welcome! Feel free to use this to communicate.";;
  addNotification "To see a list of chatroom commands, type /help";;
  userEntered peerId userName;;
  emit InitializeCommands;;
  emit BindTextEntry;;
  emit RequestPermission.

(** The callback [initialize] passes to [Notification.requestPermission]. *)
Definition permissionCallback (permission : string) : C unit :=
  if String.eqb permission "granted"
  then modify (set_showNotifications true)
  else emit (ErrorMetricLog NotificationsDenied).

(** The chat, driven one call at a time. *)
Inductive action : Type :=
  | Initialize (peerId userName : string) (sendMessageFn : fnId)
  | Permission (permission : string)
  | UserEntered (peerId userName : string)
  | UserLeft (peerId : string)
  | AddNotification (message : string)
  | AddMessage (peerId message : string)
  | PeerMessage (peerId : string) (content : object).

Definition perform (a : action) : C unit :=
  match a with
  | Initialize peerId userName sendMessageFn =>
      initialize peerId userName sendMessageFn
  | Permission permission => permissionCallback permission
  | UserEntered peerId userName => userEntered peerId userName
  | UserLeft peerId => userLeft peerId
  | AddNotification message => addNotification message
  | AddMessage peerId message => addMessage peerId message
  | PeerMessage peerId content => handlePeerMessage peerId content
  end.

Fixpoint run (acts : list action) (st : state) : state * list event :=
  match acts with
  | [] => (st, [])
  | a :: acts' =>
      match perform a st with
      | (_, st1, evs1) =>
          match run acts' st1 with
          | (st2, evs2) => (st2, evs1 ++ evs2)
          end
      end
  end.

End Methods.

(** No two peers share a colour: the colours in use are pairwise distinct,
    every peer's colour is among them, distinct peers have distinct
    colours, and a peer with a colour has a name. *)
Record colours_consistent (st : state) : Prop := {
  used_nodup : NoDup (colorsUsed st);
  used_covers : forall p c, peerColorMap st !! p = Some c -> c ∈ colorsUsed st;
  colours_distinct : forall p q c,
    peerColorMap st !! p = Some c -> peerColorMap st !! q = Some c -> p = q;
  coloured_named : forall p,
    is_Some (peerColorMap st !! p) -> is_Some (_peerIdMap st !! p)
}.

(** The notifications in a log. *)
Definition notifications (evs : list event) : list (string * string) :=
  omap (fun e => match e with
                 | Notification title msg _ => Some (title, msg)
                 | _ => None
                 end) evs.

(** The lines appended in a log. *)
Definition lines (evs : list event) : list line :=
  omap (fun e => match e with AppendLine l => Some l | _ => None end) evs.

(** The calls other modules make when something happens in the room: a
    peer enters or leaves, or a message is shown. *)
Definition room_event (a : action) : bool :=
  match a with
  | UserEntered _ _ | UserLeft _ | AddMessage _ _ => true
  | PeerMessage _ content =>
      match prop content "msg" with VStr _ => true | _ => false end
  | Initialize _ _ _ | Permission _ | AddNotification _ => false
  end.

(** The calls that show something other than a message, or nothing, and
    leave peer [p] in the room. *)
Definition interlude (p : string) (a : action) : bool :=
  match a with
  | UserEntered _ _ | AddNotification _ | Permission _ => true
  | UserLeft q => negb (String.eqb q p)
  | Initialize _ _ _ | AddMessage _ _ | PeerMessage _ _ => false
  end.

(** The two-digit decimal numeral of [n]. *)
Definition two_digits (n : nat) : string :=
  String (Ascii.ascii_of_nat (48 + n / 10))
    (String (Ascii.ascii_of_nat (48 + n mod 10)) EmptyString).

End Chat.

(** * The navigation bar

    The stateful buttons of [navbar.js], which act like checkboxes.  jQuery
    is a collaborator: a call on [$(id)] is an event.  The functions given
    to [handle] are opaque: calling one is an event, and they are assumed
    not to call back into the button they are attached to. *)
Module NavBar.

Inductive event : Type :=
  | Css (id property value : string)
  | BindHover (id : string)
  | BindClick (id : string)
  | Call (f : fnId)
  | ErrorMetricLog (message : string)
  | Blur (id : string).

Record StatefulButton : Type := {
  id : string;
  enabledFn : option fnId;
  disabledFn : option fnId;
  enabled : bool
}.

(** [_paintColor()] *)
Definition _paintColor (b : StatefulButton) : list event :=
  [Css (id b) "fill" (if enabled b then "#009966" else "#cc0033")].

(** [new StatefulButton(id, enabled)]; [None] is an [enabled] left
    [undefined]. *)
Definition newStatefulButton (i : string) (e : option bool)
  : StatefulButton * list event :=
  let b := {| id := i; enabledFn := None; disabledFn := None;
              enabled := match e with None => false | Some e => e end |} in
  (b, [BindHover i; BindClick i] ++ _paintColor b).

(** [button.toggle()] *)
Definition toggle (b : StatefulButton) : StatefulButton * list event :=
  let b' := {| id := id b; enabledFn := enabledFn b; disabledFn := disabledFn b;
               enabled := if enabled b then false else true |} in
  (b', _paintColor b').

(** [button.handle(enabledFn, disabledFn)] *)
Definition handle (e d : fnId) (b : StatefulButton) : StatefulButton :=
  {| id := id b; enabledFn := Some e; disabledFn := Some d;
     enabled := enabled b |}.

(** [button.isEnabled()] *)
Definition isEnabled (b : StatefulButton) : bool := enabled b.

(** The handler [StatefulButton] binds to the click on [$(id)]. *)
Definition click (b : StatefulButton) : StatefulButton * list event :=
  let (b1, painted) := toggle b in
  (b1,
   painted
   ++ [if isEnabled b1
       then match enabledFn b1 with
            | Some f => Call f
            | None =>
                ErrorMetricLog
                  (id b1 +:+ ".click => StatefulButton.enabledFn not defined")
            end
       else match disabledFn b1 with
            | Some f => Call f
            | None =>
                ErrorMetricLog
                  (id b1 +:+ ".click => StatefulButton.disabledFn not defined")
            end;
       Blur (id b1)]).

(** [n] clicks in a row. *)
Fixpoint clicks (n : nat) (b : StatefulButton) : StatefulButton * list event :=
  match n with
  | O => (b, [])
  | S n' =>
      let (b1, evs1) := click b in
      let (b2, evs2) := clicks n' b1 in
      (b2, evs1 ++ evs2)
  end.

(** The functions called in a log, in order. *)
Definition calls (evs : list event) : list fnId :=
  omap (fun e => match e with Call f => Some f | _ => None end) evs.

(** The colours painted on [$(i)] in a log, in order. *)
Definition fills (i : string) (evs : list event) : list string :=
  omap (fun e => match e with
                 | Css i' property value =>
                     if String.eqb i' i && String.eqb property "fill"
                     then Some value else None
                 | _ => None
                 end) evs.

(** The colour of a stateful button in a given state. *)
Definition colour (e : bool) : string :=
  if e then "#009966" else "#cc0033".

End NavBar.

(** * Properties *)

(** ** The dispatcher on envelopes it does not act on *)

Lemma unrecognised_dropped c peerId content st :
  unrecognised content = true ->
  handlePeerMessage c peerId content st
  = Returned VUndefined st [ErrorMetricLog (drop_reason content)].
Proof.
  unfold unrecognised, drop_reason, handlePeerMessage.
  destruct (prop content "opcode") as [| |b|n|opcode|l|o]; try done.
  destruct (number_of (prop content "id")) as [id|].
  - destruct (String.eqb opcode "testP2PConnection"); [done|].
    destruct (String.eqb opcode "response" && defined (prop content "data")); done.
  - destruct (String.eqb opcode "testP2PConnection"),
      (String.eqb opcode "response" && defined (prop content "data")); done.
Qed.

(** C10.  An envelope with opcode "response" and a numeric id but no [data]
    property takes the unsupported-opcode branch: it is logged and dropped,
    no callback is invoked, the console state (the registry included) is
    unchanged, and so a transaction registered under that id stays pending. *)
Theorem response_without_data_dropped c peerId content id st :
  prop content "opcode" = VStr "response" ->
  prop content "id" = VNum id ->
  prop content "data" = VUndefined ->
  handlePeerMessage c peerId content st
  = Returned VUndefined st [ErrorMetricLog (UnsupportedOpcode "response")]
  /\ forall st' evs cb,
       handlePeerMessage c peerId content st = Returned VUndefined st' evs ->
       _transactionMap st !! id = Some cb ->
       _transactionMap st' !! id = Some cb.
Proof.
  intros Hop Hid Hdata.
  assert (handlePeerMessage c peerId content st
          = Returned VUndefined st [ErrorMetricLog (UnsupportedOpcode "response")]) as E.
  { rewrite unrecognised_dropped.
    - unfold drop_reason. by rewrite Hop.
    - unfold unrecognised. by rewrite Hop, Hid, Hdata. }
  split; [exact E|].
  intros st' evs cb E'. rewrite E in E'. by inversion E'.
Qed.

Lemma response_without_data_dropped_witness :
  let st := {| _txid := 1; _transactionMap := {[ 0 := UserFn 7%nat ]};
               _vtcObj := None; arrays := [] |} in
  let content : object := {[ "opcode" := VStr "response"; "id" := VNum 0 ]} in
  handlePeerMessage Scenario.clientA "B" content st
  = Returned VUndefined st [ErrorMetricLog (UnsupportedOpcode "response")].
Proof.
  intros st content.
  apply (response_without_data_dropped Scenario.clientA "B" content 0 st);
    reflexivity.
Defined.

(** ** Resolving transactions *)

(** The response branch on a registered transaction. *)
Lemma resolve_registered c peerId content id data transaction st :
  prop content "opcode" = VStr "response" ->
  prop content "id" = VNum id ->
  prop content "data" = data ->
  defined data = true ->
  _transactionMap st !! id = Some transaction ->
  handlePeerMessage c peerId content st
  = (emit (Invoke transaction data);; call transaction data;;
     deleteTransaction id;; mret VUndefined) st.
Proof.
  intros Hop Hid Hdata Hdef Hreg.
  unfold handlePeerMessage. rewrite Hop, Hid, Hdata, Hdef. cbn.
  unfold_M. rewrite Hreg.
  by destruct (call transaction data st) as [[] st1 evs1|].
Qed.

(** The response branch on an identifier that is not registered. *)
Lemma resolve_unknown c peerId content id st :
  prop content "opcode" = VStr "response" ->
  prop content "id" = VNum id ->
  defined (prop content "data") = true ->
  _transactionMap st !! id = None ->
  handlePeerMessage c peerId content st
  = Returned VUndefined st [ErrorMetricLog (InvalidId id)].
Proof.
  intros Hop Hid Hdef Hreg.
  unfold handlePeerMessage. rewrite Hop, Hid, Hdef. cbn.
  unfold_M. by rewrite Hreg.
Qed.

Lemma resolve_absent c peerId content id st :
  prop content "opcode" = VStr "response" ->
  prop content "id" = VNum id ->
  _transactionMap st !! id = None ->
  handlePeerMessage c peerId content st
  = Returned VUndefined st
      [ErrorMetricLog (if defined (prop content "data")
                       then InvalidId id else UnsupportedOpcode "response")].
Proof.
  intros Hop Hid Hreg.
  destruct (defined (prop content "data")) eqn:Hdef.
  - by apply resolve_unknown.
  - rewrite unrecognised_dropped.
    + unfold drop_reason. by rewrite Hop.
    + unfold unrecognised. by rewrite Hop, Hid, Hdef.
Qed.

(** C4.  Resolving an identifier that is not registered (a "response"
    envelope with that id, whatever its payload) returns normally, invokes no
    callback and leaves the whole console state, hence every registered
    transaction, unchanged; the only effect is one diagnostic. *)
Theorem resolve_unregistered_is_noop c peerId content id st :
  prop content "opcode" = VStr "response" ->
  prop content "id" = VNum id ->
  _transactionMap st !! id = None ->
  handlePeerMessage c peerId content st
  = Returned VUndefined st
      [ErrorMetricLog (if defined (prop content "data")
                       then InvalidId id else UnsupportedOpcode "response")]
  /\ invoked (events_of (handlePeerMessage c peerId content st)) = []
  /\ forall y, _transactionMap
                 (state_after (handlePeerMessage c peerId content st) st) !! y
               = _transactionMap st !! y.
Proof.
  intros Hop Hid Hreg.
  rewrite (resolve_absent c peerId content id st Hop Hid Hreg). by cbn.
Qed.

Lemma resolve_unregistered_is_noop_witness :
  let st := {| _txid := 2; _transactionMap := {[ 0 := UserFn 7%nat ]};
               _vtcObj := None; arrays := [] |} in
  handlePeerMessage Scenario.clientA "B" (Scenario.response 1 VNull) st
  = Returned VUndefined st [ErrorMetricLog (InvalidId 1)].
Proof.
  intros st.
  apply (resolve_unregistered_is_noop Scenario.clientA "B"
           (Scenario.response 1 VNull) 1 st); reflexivity.
Defined.






(** ** Malformed calls of the public entry points *)

(** C9.  [getP2PDiagnosticForPeerId] called without a [peerId] or without a
    [completionFn], and [getP2PDiagnostics] called without a [completionFn],
    return [false] at once: no exception, no transaction id allocated, no
    transaction registered, no message sent (the state is unchanged and the
    only event is the usage text on the console). *)
Theorem missing_argument_returns_false :
  (forall completionFn st,
     getP2PDiagnosticForPeerId None completionFn st
     = Returned (VBool false) st [ConsoleUsage "getP2PDiagnosticForPeerId"])
  /\ (forall peerId st,
        getP2PDiagnosticForPeerId peerId None st
        = Returned (VBool false) st [ConsoleUsage "getP2PDiagnosticForPeerId"])
  /\ (forall st,
        getP2PDiagnostics None st
        = Returned (VBool false) st [ConsoleUsage "getP2PDiagnostics"]).
Proof.
  split; [|split].
  - by intros [c|] st.
  - by intros [p|] st.
  - done.
Qed.

(** ** The dispatcher never throws *)


Lemma probe_handled c peerId content id v st :
  prop content "opcode" = VStr "testP2PConnection" ->
  prop content "id" = VNum id ->
  _vtcObj st = Some v ->
  handlePeerMessage c peerId content st
  = Returned VUndefined st
      [ErrorMetricLog (RequestHandled peerId);
       SendPeerMessage peerId "debug"
         {[ "id" := VNum id;
            "opcode" := VStr "response";
            "data" := VObj {[ "myPeerId" := VStr (getId c);
                              "data" := VObj (connectStatuses c (roomList v)) ]} ]}].
Proof.
  intros Hop Hid Hv. unfold handlePeerMessage. rewrite Hop, Hid. cbn.
  unfold _getRoomUserList, vtc. unfold_M. by rewrite Hv.
Qed.

Lemma recognised_cases content :
  unrecognised content = false ->
  (exists id, prop content "opcode" = VStr "testP2PConnection"
              /\ prop content "id" = VNum id)
  \/ (exists id, prop content "opcode" = VStr "response"
                 /\ prop content "id" = VNum id
                 /\ defined (prop content "data") = true).
Proof.
  unfold unrecognised.
  destruct (prop content "opcode") as [| |b|n|opcode|l|o]; try done.
  destruct (prop content "id") as [| |b|id|s|l|o]; try done. cbn.
  destruct (String.eqb_spec opcode "testP2PConnection") as [->|_]; [eauto|].
  destruct (String.eqb_spec opcode "response") as [->|_]; [|done].
  destruct (defined (prop content "data")); [eauto|done].
Qed.



(** ** The connectivity-status responder *)






(** ** The transaction-id allocator *)

Lemma round_double_exact z : Z.abs z <= 2 ^ 53 -> round_double z = z.
Proof.
  intros Hz. unfold round_double.
  destruct (Z.ltb_spec (Z.abs z) (2 ^ 53)) as [_|Hge]; [done|].
  assert (Z.abs z = 2 ^ 53) as Habs by lia.
  rewrite Habs.
  change (Z.sgn z * 2 ^ 53 = z).
  rewrite <- Habs. rewrite Z.mul_comm. apply Z.abs_sgn.
Qed.

Lemma round_double_limit : round_double (2 ^ 53 + 1) = 2 ^ 53.
Proof. reflexivity. Qed.

Lemma after_allocations_succ n st :
  after_allocations (N.succ n) st
  = state_after (_getTxid (after_allocations n st)) (after_allocations n st).
Proof. unfold after_allocations. by rewrite N.iter_succ. Qed.

Lemma after_allocations_frame n st :
  _transactionMap (after_allocations n st) = _transactionMap st
  /\ _vtcObj (after_allocations n st) = _vtcObj st
  /\ arrays (after_allocations n st) = arrays st.
Proof.
  induction n as [|n IH] using N.peano_ind; [done|].
  rewrite after_allocations_succ. exact IH.
Qed.

Lemma after_allocations_txid n st :
  0 <= _txid st ->
  _txid st + Z.of_N n <= 2 ^ 53 ->
  _txid (after_allocations n st) = _txid st + Z.of_N n.
Proof.
  intros Hpos. induction n as [|n IH] using N.peano_ind; intros Hle.
  - cbn. lia.
  - rewrite after_allocations_succ. cbn. rewrite IH by lia.
    rewrite round_double_exact; lia.
Qed.

(** C7, as stated, fails on long runs: the counter is a double, so
    [2^53 + 1] rounds back to [2^53], and calls number [2^53] and [2^53 + 1]
    of a fresh process both return 9007199254740992. *)
Lemma txid_repeats :
  allocated (2 ^ 53) initial = 9007199254740992
  /\ allocated (2 ^ 53 + 1) initial = 9007199254740992.
Proof.
  assert (_txid (after_allocations (2 ^ 53) initial) = 2 ^ 53) as E.
  { rewrite after_allocations_txid; [reflexivity|done|reflexivity]. }
  split.
  - unfold allocated, _getTxid. rewrite E. reflexivity.
  - unfold allocated. rewrite N.add_1_r, after_allocations_succ.
    unfold _getTxid at 1. unfold state_after, _getTxid. cbn [_txid].
    rewrite E. reflexivity.
Qed.

(** C7, amended.  While the counter stays within the integers a double
    represents exactly (a run of at most [2^53 + 1] calls in a fresh
    process), every call of [_getTxid] returns a non-negative integer that is
    strictly greater than the one returned by any earlier call; each call
    returns normally, emits nothing, and changes the console only by adding
    one to the counter. *)
Theorem txid_strictly_increasing st (n m : N) :
  0 <= _txid st ->
  (n < m)%N ->
  _txid st + Z.of_N m <= 2 ^ 53 ->
  0 <= allocated n st < allocated m st
  /\ forall k, (k <= m)%N ->
       _getTxid (after_allocations k st)
       = Returned (allocated k st) (after_allocations (N.succ k) st) []
       /\ ((k < m)%N ->
           _txid (after_allocations (N.succ k) st) = allocated k st + 1)
       /\ _transactionMap (after_allocations (N.succ k) st) = _transactionMap st
       /\ _vtcObj (after_allocations (N.succ k) st) = _vtcObj st
       /\ arrays (after_allocations (N.succ k) st) = arrays st.
Proof.
  intros Hpos Hnm Hle.
  assert (forall k, (k <= m)%N -> allocated k st = _txid st + Z.of_N k) as Hall.
  { intros k Hk. unfold allocated, _getTxid.
    apply after_allocations_txid; lia. }
  split; [rewrite !Hall by lia; lia|].
  intros k Hk. split; [|split].
  - rewrite after_allocations_succ. reflexivity.
  - intros Hkm. rewrite Hall by lia.
    rewrite after_allocations_txid by lia. lia.
  - apply after_allocations_frame.
Qed.

Lemma txid_strictly_increasing_witness :
  0 <= allocated 0 initial < allocated 1 initial.
Proof.
  apply (txid_strictly_increasing initial 0 1); [done|done|].
  vm_compute. discriminate.
Defined.

(** ** One aggregator among everything else the console does *)

Lemma completions_app r evs1 evs2 :
  completions r (evs1 ++ evs2) = completions r evs1 ++ completions r evs2.
Proof. apply omap_app. Qed.

Section Keeps.
Context (r : arrayRef) (n : nat) (f : fnId).

Lemma keeps_bind {A B} (Q : A -> Prop) (Q' : B -> Prop) (m : M A) (k : A -> M B) :
    keeps r n f Q m ->
    (forall a, Q a -> keeps r n f Q' (k a)) ->
    keeps r n f Q' (m ≫= k).
Proof.
    intros Hm Hk st Hinv. specialize (Hm st Hinv).
    unfold mbind, M_bind.
    destruct (m st) as [a st1 evs1|]; [|done].
    destruct Hm as (Ha & Hinv1 & Hp1 & Ha1 & Hc1).
    specialize (Hk a Ha st1 Hinv1).
    destruct (k a st1) as [b st2 evs2|]; [|done].
    destruct Hk as (Hb & Hinv2 & Hp2 & Ha2 & Hc2).
    split; [done|]. split; [done|].
    split; [congruence|]. split; [congruence|].
    by rewrite completions_app, Hc1, Hc2.
Qed.

Lemma keeps_ret {A} (Q : A -> Prop) (a : A) : Q a -> keeps r n f Q (mret a).
Proof. intros Ha st Hinv. by cbn. Qed.

Lemma keeps_emit e :
    completions r [e] = [] -> keeps r n f (fun _ => True) (emit e).
Proof. intros He st Hinv. by cbn. Qed.

Lemma keeps_vtc : keeps r n f (fun _ => True) vtc.
Proof. intros st Hinv. unfold vtc. by destruct (_vtcObj st). Qed.

Lemma keeps_getRoomUserList : keeps r n f (fun _ => True) _getRoomUserList.
Proof.
  eapply keeps_bind; [apply keeps_vtc|]. intros; by apply keeps_ret.
Qed.

Lemma keeps_setVtcObject v : keeps r n f (fun _ => True) (setVtcObject v).
Proof.
    intros st [H1 H2 H3 H4]. cbn.
    split; [done|]. split; [by constructor|]. done.
Qed.

Lemma keeps_newArray : keeps r n f (fun r' => r' <> r) newArray.
Proof.
    intros st [H1 H2 H3 H4]. cbn. split; [lia|].
    split; [|split; [done|split; [|done]]].
    - split; cbn; [done| |done|done]. rewrite length_app. lia.
    - by rewrite lookup_total_app_l.
Qed.
End Keeps.

(** The single-target primitive, computed. *)
Lemma forPeer_outcome peerId completionFn v st :
  _vtcObj st = Some v ->
  getP2PDiagnosticForPeerId (Some peerId) (Some completionFn) st
  = Returned VUndefined
      {| _txid := round_double (_txid st + 1);
         _transactionMap := <[_txid st := completionFn]> (_transactionMap st);
         _vtcObj := _vtcObj st;
         arrays := arrays st |}
      [SendPeerMessage peerId "debug"
         {[ "opcode" := VStr "testP2PConnection"; "id" := VNum (_txid st) ]}].
Proof.
  intros Hv. unfold getP2PDiagnosticForPeerId, vtc, _getTxid, _registerTransaction.
  unfold_M. rewrite Hv. cbn. by rewrite Hv.
Qed.

Lemma forPeer_thrown peerId completionFn st :
  _vtcObj st = None ->
  getP2PDiagnosticForPeerId (Some peerId) (Some completionFn) st = Thrown.
Proof.
  intros Hv. unfold getP2PDiagnosticForPeerId, vtc. unfold_M. by rewrite Hv.
Qed.

Lemma round_double_succ_bounds t :
  0 <= t <= 2 ^ 53 -> t <= round_double (t + 1) <= 2 ^ 53.
Proof.
  intros Ht. destruct (decide (t = 2 ^ 53)) as [->|Hne].
  - rewrite round_double_limit. lia.
  - rewrite round_double_exact; lia.
Qed.

(** Registering under the identifier just issued does not disturb the
    pending transactions of [r] when the callback is not a closure over
    [r]. *)
Lemma pending_register_other r n f c st :
  agg_inv r n f st ->
  appends_to r c = false ->
  filter (fun kc : Z * callback => appends_to r kc.2 = true)
    (<[_txid st := c]> (_transactionMap st))
  = pending r st.
Proof.
  intros Hinv Hc. unfold pending.
  rewrite map_filter_insert_False by (cbn; congruence).
  rewrite map_filter_delete. apply delete_id.
  apply map_lookup_filter_None_2.
  destruct (_transactionMap st !! _txid st) as [c'|] eqn:E; [|by left].
  right. intros c'' [= <-] Hc'. cbn in Hc'.
  pose proof (inv_fresh _ _ _ _ Hinv _ _ E Hc'). lia.
Qed.

Section KeepsCalls.
Context (r : arrayRef) (n : nat) (f : fnId).

Lemma keeps_forPeer peerId c :
    appends_to r c = false ->
    keeps r n f (fun _ => True) (getP2PDiagnosticForPeerId peerId (Some c)).
Proof.
    intros Hc st Hinv. destruct peerId as [p|]; [|by cbn].
    destruct (_vtcObj st) as [v|] eqn:Hv.
    - rewrite (forPeer_outcome p c v st Hv).
      pose proof (round_double_succ_bounds _ (inv_txid _ _ _ _ Hinv)) as Hb.
      split; [done|]. split; [|split; [|done]].
      + destruct Hinv as [H1 H2 H3 H4]. constructor; cbn.
        * lia.
        * done.
        * intros x c' Hx Hc'. destruct (decide (x = _txid st)) as [->|Hne].
          -- rewrite lookup_insert_eq in Hx. congruence.
          -- rewrite lookup_insert_ne in Hx by done. eauto.
        * intros x c' Hx Hc'. destruct (decide (x = _txid st)) as [->|Hne].
          -- rewrite lookup_insert_eq in Hx. congruence.
          -- rewrite lookup_insert_ne in Hx by done.
             specialize (H4 x c' Hx Hc'). lia.
      + by apply (pending_register_other r n f).
    - by rewrite forPeer_thrown.
Qed.

Lemma keeps_forEach {A} (l : list A) (body : A -> M value) :
    (forall x, keeps r n f (fun _ => True) (body x)) ->
    keeps r n f (fun _ => True) (forEach l body).
Proof.
    intros Hbody. induction l as [|x l IH]; cbn.
    - by apply keeps_ret.
    - eapply keeps_bind; [apply Hbody|]. intros _ _. exact IH.
Qed.

Lemma keeps_getP2PDiagnostics completionFn :
    keeps r n f (fun _ => True) (getP2PDiagnostics completionFn).
Proof.
    destruct completionFn as [g|]; unfold getP2PDiagnostics.
    - eapply keeps_bind; [apply keeps_vtc|]. intros v _.
      eapply keeps_bind; [apply keeps_getRoomUserList|]. intros room _.
      eapply keeps_bind; [apply keeps_newArray|]. intros r' Hr'.
      eapply keeps_bind; [|intros; by apply keeps_ret].
      apply keeps_forEach. intros p. apply (keeps_forPeer (Some p)).
      cbn. by apply bool_decide_eq_false.
    - eapply keeps_bind; [by apply keeps_emit|]. intros; by apply keeps_ret.
Qed.
End KeepsCalls.

(** The response branch on a registered transaction, computed. *)
Lemma resolve_outcome c peerId content id transaction st :
  prop content "opcode" = VStr "response" ->
  prop content "id" = VNum id ->
  defined (prop content "data") = true ->
  _transactionMap st !! id = Some transaction ->
  handlePeerMessage c peerId content st
  = Returned VUndefined
      {| _txid := _txid st;
         _transactionMap := delete id (_transactionMap st);
         _vtcObj := _vtcObj st;
         arrays := arrays_after transaction (prop content "data") st |}
      (Invoke transaction (prop content "data")
         :: completion_events transaction (prop content "data") st).
Proof.
  intros Hop Hid Hdef Hreg.
  rewrite (resolve_registered c peerId content id _ transaction st
             Hop Hid eq_refl Hdef Hreg).
  destruct transaction as [g|r' n' f']; cbn; [done|].
  unfold_M. unfold push. cbn.
  destruct (_ =? _)%nat; cbn; by rewrite ?app_nil_r.
Qed.

Lemma probe_thrown c peerId content id st :
  prop content "opcode" = VStr "testP2PConnection" ->
  prop content "id" = VNum id ->
  _vtcObj st = None ->
  handlePeerMessage c peerId content st = Thrown.
Proof.
  intros Hop Hid Hv. unfold handlePeerMessage. rewrite Hop, Hid. cbn.
  unfold _getRoomUserList, vtc. unfold_M. by rewrite Hv.
Qed.

Lemma agg_inv_delete r n f id arrs st :
  agg_inv r n f st ->
  length arrs = length (arrays st) ->
  agg_inv r n f {| _txid := _txid st;
                   _transactionMap := delete id (_transactionMap st);
                   _vtcObj := _vtcObj st;
                   arrays := arrs |}.
Proof.
  intros [H1 H2 H3 H4] Hlen. constructor; cbn.
  - done.
  - by rewrite Hlen.
  - intros x c Hx. apply lookup_delete_Some in Hx as [_ Hx]. eauto.
  - intros x c Hx. apply lookup_delete_Some in Hx as [_ Hx]. eauto.
Qed.

Lemma arrays_after_length transaction data st :
  length (arrays_after transaction data st) = length (arrays st).
Proof. destruct transaction; cbn; [done|]. apply length_insert. Qed.

Lemma handlePeerMessage_step r n f c peerId content st ret st1 evs1 :
  agg_inv r n f st ->
  handlePeerMessage c peerId content st = Returned ret st1 evs1 ->
  agg_inv r n f st1
  /\ (untouched r st st1 evs1 \/ resolved_one r n f st st1 evs1).
Proof.
  intros Hinv Hrun.
  destruct (unrecognised content) eqn:Hun.
  { rewrite (unrecognised_dropped c peerId content st Hun) in Hrun.
    inversion Hrun; subst. split; [done|]. by left. }
  destruct (recognised_cases content Hun)
    as [(id & Hop & Hid)|(id & Hop & Hid & Hdef)].
  { destruct (_vtcObj st) as [v|] eqn:Hv.
    - rewrite (probe_handled c peerId content id v st Hop Hid Hv) in Hrun.
      inversion Hrun; subst. split; [done|]. by left.
    - by rewrite (probe_thrown c peerId content id st Hop Hid Hv) in Hrun. }
  destruct (_transactionMap st !! id) as [transaction|] eqn:Hreg.
  2:{ rewrite (resolve_absent c peerId content id st Hop Hid Hreg) in Hrun.
      inversion Hrun; subst. split; [done|]. left. split; [done|].
      split; [done|]. by destruct (defined _). }
  rewrite (resolve_outcome c peerId content id transaction st
             Hop Hid Hdef Hreg) in Hrun.
  inversion Hrun; subst; clear Hrun.
  split; [apply agg_inv_delete; [done|apply arrays_after_length]|].
  set (data := prop content "data").
  destruct (appends_to r transaction) eqn:Happ.
  - right. exists data.
    pose proof (inv_closure _ _ _ _ Hinv _ _ Hreg Happ) as ->.
    pose proof (inv_alloc _ _ _ _ Hinv) as Halloc.
    match goal with |- context [pending r ?s1] =>
      assert (pending r s1 = delete id (pending r st)) as ->
        by apply map_filter_delete
    end.
    assert (pending r st !! id = Some (AppendDataFn r n f)) as Hin
      by by apply map_lookup_filter_Some_2.
    cbn [arrays arrays_after].
    rewrite list_lookup_total_insert_eq by done.
    split; [|split; [apply delete_subseteq|split; [done|]]].
    + rewrite map_size_delete_Some by eauto.
      assert (size (pending r st) <> 0%nat) as Hne; [|lia].
      apply map_size_non_empty_iff. intros Hempty.
      rewrite Hempty in Hin. by rewrite lookup_empty in Hin.
    + unfold completions, completion_events. cbn.
      destruct (_ =? _)%nat; cbn; [|done]. by rewrite decide_True.
  - left.
    assert (pending r st !! id = None) as Hnone.
    { apply map_lookup_filter_None_2. right. intros c' Hc'.
      rewrite Hreg in Hc'. injection Hc' as <-. cbn. congruence. }
    split; [|split].
    + unfold pending at 1. cbn [_transactionMap].
      rewrite map_filter_delete. by apply delete_id.
    + cbn [arrays]. destruct transaction as [g|r' n' f']; cbn; [done|].
      apply list_lookup_total_insert_ne. cbn in Happ.
      apply bool_decide_eq_false in Happ. done.
    + unfold completions, completion_events.
      destruct transaction as [g|r' n' f']; cbn; [done|].
      cbn in Happ. apply bool_decide_eq_false in Happ.
      destruct (_ =? _)%nat; cbn; [|done]. by rewrite decide_False.
Qed.

Lemma keeps_step r n f {A} (Q : A -> Prop) (m : M A) st a st1 evs1 :
  keeps r n f Q m ->
  agg_inv r n f st ->
  m st = Returned a st1 evs1 ->
  agg_inv r n f st1 /\ untouched r st st1 evs1.
Proof.
  intros Hm Hinv Hrun. specialize (Hm st Hinv). rewrite Hrun in Hm.
  destruct Hm as (_ & ? & ? & ? & ?). unfold untouched. auto.
Qed.

Lemma perform_step r n f a st ret st1 evs1 :
  agg_inv r n f st ->
  perform a st = Returned ret st1 evs1 ->
  agg_inv r n f st1
  /\ (untouched r st st1 evs1 \/ resolved_one r n f st st1 evs1).
Proof.
  intros Hinv Hrun. destruct a as [c peerId content|peerId g|g|v]; cbn in Hrun.
  - by apply (handlePeerMessage_step r n f c peerId content st ret).
  - destruct g as [g|]; cbn in Hrun.
    + destruct (keeps_step r n f _ _ st ret st1 evs1
                  (keeps_forPeer r n f peerId (UserFn g) eq_refl) Hinv Hrun).
      auto.
    + assert (getP2PDiagnosticForPeerId peerId None st
              = Returned (VBool false) st
                  [ConsoleUsage "getP2PDiagnosticForPeerId"]) as E
        by by destruct peerId.
      rewrite E in Hrun. inversion Hrun; subst. split; [done|]. by left.
  - destruct (keeps_step r n f _ _ st ret st1 evs1
                (keeps_getP2PDiagnostics r n f g) Hinv Hrun).
    auto.
  - inversion Hrun; subst. split; [|by left].
    destruct Hinv. by constructor.
Qed.

(** The aggregator over [r] along any run: the array and the pending
    transactions always add up to [n], pending transactions are only ever
    resolved, and the completion is called exactly at the event that
    resolves the last of them. *)
Lemma run_aggregator r n f acts : forall st st2 evs,
  agg_inv r n f st ->
  (length (arrays st !!! r) + size (pending r st) = n)%nat ->
  run acts st = (st2, evs) ->
  agg_inv r n f st2
  /\ (length (arrays st2 !!! r) + size (pending r st2) = n)%nat
  /\ (size (pending r st2) <= size (pending r st))%nat
  /\ pending r st2 ⊆ pending r st
  /\ (size (pending r st2) = size (pending r st) ->
      arrays st2 !!! r = arrays st !!! r)
  /\ completions r evs
     = if (0 <? size (pending r st))%nat && (size (pending r st2) =? 0)%nat
       then [(f, VArr (arrays st2 !!! r))] else [].
Proof.
  induction acts as [|a acts IH]; intros st st2 evs Hinv Hsum Hrun; cbn in Hrun.
  - injection Hrun as <- <-.
    split; [done|]. split; [done|]. split; [done|]. split; [done|].
    split; [done|]. by destruct (size (pending r st)).
  - destruct (perform a st) as [ret st1 evs1|] eqn:Hstep; [|by eapply IH].
    destruct (run acts st1) as [st2' evs2] eqn:Hrest.
    injection Hrun as <- <-.
    destruct (perform_step r n f a st ret st1 evs1 Hinv Hstep)
      as [Hinv1 [(Hp & Ha & Hc)|(data & Hp & Hsub & Ha & Hc)]].
    + assert (length (arrays st1 !!! r) + size (pending r st1) = n)%nat as Hsum1
        by by rewrite Hp, Ha.
      destruct (IH st1 st2' evs2 Hinv1 Hsum1 Hrest)
        as (H1 & H2 & H3 & H3' & H4 & H5).
      rewrite Hp, Ha in *.
      split; [done|]. split; [done|]. split; [done|]. split; [done|].
      split; [done|]. by rewrite completions_app, Hc, H5.
    + assert (length (arrays st1 !!! r) + size (pending r st1) = n)%nat as Hsum1.
      { rewrite Ha, length_app. cbn. lia. }
      destruct (IH st1 st2' evs2 Hinv1 Hsum1 Hrest)
        as (H1 & H2 & H3 & H3' & H4 & H5).
      split; [done|]. split; [done|]. split; [lia|].
      split; [by etrans|]. split; [lia|].
      rewrite completions_app, Hc, H5, Hp. cbn [Nat.ltb Nat.leb andb].
      destruct (size (pending r st1)) as [|p1] eqn:Hp1.
      * assert (size (pending r st2') = 0)%nat as -> by lia. cbn.
        rewrite H4 by lia.
        assert (length (arrays st1 !!! r) = n) as -> by lia.
        by rewrite Nat.eqb_refl.
      * cbn. assert (length (arrays st1 !!! r) <> n) as Hne by lia.
        apply Nat.eqb_neq in Hne. by rewrite Hne.
Qed.

(** ** The fan-out of [getP2PDiagnostics] *)

Lemma fanout_loop r n f v l : forall s,
  _vtcObj s = Some v ->
  agg_inv r n f s ->
  _txid s + Z.of_nat (length l) <= 2 ^ 53 ->
  exists s',
    forEach l (fun p => getP2PDiagnosticForPeerId (Some p)
                          (Some (AppendDataFn r n f))) s
    = Returned tt s' (probes (_txid s) l)
    /\ agg_inv r n f s'
    /\ _vtcObj s' = Some v
    /\ arrays s' = arrays s
    /\ _txid s' = _txid s + Z.of_nat (length l)
    /\ size (pending r s') = (size (pending r s) + length l)%nat
    /\ (forall x, ~ (_txid s <= x < _txid s + Z.of_nat (length l)) ->
          _transactionMap s' !! x = _transactionMap s !! x)
    /\ (forall x, _txid s <= x < _txid s + Z.of_nat (length l) ->
          _transactionMap s' !! x = Some (AppendDataFn r n f)).
Proof.
  induction l as [|p l IH]; intros s Hv Hinv Hle.
  - exists s. cbn.
    split; [done|]. split; [done|]. split; [done|]. split; [done|].
    split; [lia|]. split; [lia|]. split; [done|]. intros x Hx. lia.
  - cbn [forEach length] in *.
    set (c := AppendDataFn r n f) in *.
    set (s1 := {| _txid := round_double (_txid s + 1);
                  _transactionMap := <[_txid s := c]> (_transactionMap s);
                  _vtcObj := _vtcObj s;
                  arrays := arrays s |}).
    pose proof (inv_txid _ _ _ _ Hinv) as Ht.
    assert (round_double (_txid s + 1) = _txid s + 1) as Hexact
      by (apply round_double_exact; lia).
    assert (pending r s !! _txid s = None) as Hfresh.
    { apply map_lookup_filter_None_2.
      destruct (_transactionMap s !! _txid s) as [c'|] eqn:E; [|by left].
      right. intros c'' [= <-] Hc'. cbn in Hc'.
      pose proof (inv_fresh _ _ _ _ Hinv _ _ E Hc'). lia. }
    assert (appends_to r c = true) as Hc by (cbn; by apply bool_decide_eq_true).
    assert (agg_inv r n f s1) as Hinv1.
    { destruct Hinv as [H1 H2 H3 H4]. constructor; cbn.
      - lia.
      - done.
      - intros x c' Hx Hc'. destruct (decide (x = _txid s)) as [->|Hne].
        + rewrite lookup_insert_eq in Hx. by injection Hx as <-.
        + rewrite lookup_insert_ne in Hx by done. eauto.
      - intros x c' Hx Hc'. destruct (decide (x = _txid s)) as [->|Hne].
        + lia.
        + rewrite lookup_insert_ne in Hx by done.
          specialize (H4 x c' Hx Hc'). lia. }
    destruct (IH s1) as (s' & Hrun & Hinv' & Hv' & Harr & Htx & Hsize & Hold & Hnew).
    { done. }
    { done. }
    { cbn. lia. }
    exists s'. split.
    { unfold mbind, M_bind. rewrite (forPeer_outcome p c v s Hv).
      fold s1. unfold mbind, M_bind in Hrun. rewrite Hrun.
      cbn. by rewrite Hexact. }
    split; [done|]. split; [done|]. split; [done|].
    split; [cbn in Htx; lia|].
    split.
    { rewrite Hsize. unfold pending in *. cbn [_transactionMap s1].
      rewrite map_filter_insert_True by done.
      rewrite map_size_insert_None by done. lia. }
    split.
    + intros x Hx. rewrite Hold by (cbn; lia). cbn.
      apply lookup_insert_ne. lia.
    + intros x Hx. destruct (decide (x = _txid s)) as [->|Hne].
      * rewrite Hold by (cbn; lia). cbn. apply lookup_insert_eq.
      * apply Hnew. cbn. lia.
Qed.

Lemma pending_empty r st :
  (forall x c, _transactionMap st !! x = Some c -> appends_to r c = false) ->
  pending r st = ∅.
Proof.
  intros Hnone. apply map_empty. intros x.
  apply map_lookup_filter_None_2.
  destruct (_transactionMap st !! x) as [c|] eqn:E; [|by left].
  right. intros c' [= <-]. cbn. rewrite (Hnone x c E). done.
Qed.

Lemma bind_pure {A B} (m : M A) (k : A -> M B) st a st1 :
  m st = Returned a st1 [] -> (m ≫= k) st = k a st1.
Proof. intros H. unfold mbind, M_bind. rewrite H. by destruct (k a st1). Qed.

Lemma getRoomUserList_outcome st v :
  _vtcObj st = Some v -> _getRoomUserList st = Returned (roomList v) st [].
Proof. intros Hv. unfold _getRoomUserList, vtc. unfold_M. by rewrite Hv. Qed.

(** The body of [getP2PDiagnostics] once its reads of [_vtcObj] are done:
    the fan-out loop over the targets, run in the state that holds the new
    [results] array. *)
Lemma getP2PDiagnostics_unfold st v cb :
  _vtcObj st = Some v ->
  getP2PDiagnostics (Some cb) st
  = (forEach (targets v)
       (fun p => getP2PDiagnosticForPeerId (Some p)
                   (Some (AppendDataFn (length (arrays st))
                            (length (targets v)) cb)));;
     mret VUndefined)
      {| _txid := _txid st; _transactionMap := _transactionMap st;
         _vtcObj := _vtcObj st; arrays := arrays st ++ [[]] |}.
Proof.
  intros Hv. unfold getP2PDiagnostics.
  rewrite (bind_pure vtc _ st v st) by (unfold vtc; by rewrite Hv).
  rewrite (bind_pure _getRoomUserList _ st (roomList v) st)
    by by apply getRoomUserList_outcome.
  by rewrite (bind_pure newArray _ st (length (arrays st)) _ eq_refl).
Qed.

(** A call of [getP2PDiagnostics] with a callback, computed: it allocates
    the array [r], sends one probe per target under consecutive fresh ids
    and registers the same closure over [r] under each of them. *)
Lemma getP2PDiagnostics_outcome st v cb :
  _vtcObj st = Some v ->
  0 <= _txid st ->
  _txid st + Z.of_nat (length (targets v)) <= 2 ^ 53 ->
  closures_allocated st ->
  let r := length (arrays st) in
  let n := length (targets v) in
  exists st1,
    getP2PDiagnostics (Some cb) st
    = Returned VUndefined st1 (probes (_txid st) (targets v))
    /\ agg_inv r n cb st1
    /\ arrays st1 = arrays st ++ [[]]
    /\ size (pending r st1) = n
    /\ (forall x, ~ (_txid st <= x < _txid st + Z.of_nat n) ->
          _transactionMap st1 !! x = _transactionMap st !! x)
    /\ (forall x, _txid st <= x < _txid st + Z.of_nat n ->
          _transactionMap st1 !! x = Some (AppendDataFn r n cb)).
Proof.
  intros Hv Hpos Hle Hwf r n.
  set (s0 := {| _txid := _txid st; _transactionMap := _transactionMap st;
                _vtcObj := _vtcObj st; arrays := arrays st ++ [[]] |}).
  assert (forall x c, _transactionMap s0 !! x = Some c -> appends_to r c = false)
    as Hnone.
  { intros x [g|r' n' f'] Hx; cbn; [done|].
    apply bool_decide_eq_false. apply Hwf in Hx. unfold r. lia. }
  assert (agg_inv r n cb s0) as Hinv0.
  { constructor; cbn.
    - pose proof (Nat2Z.is_nonneg (length (targets v))). lia.
    - rewrite length_app. cbn. unfold r. lia.
    - intros x c Hx Hc. rewrite (Hnone x c Hx) in Hc. done.
    - intros x c Hx Hc. rewrite (Hnone x c Hx) in Hc. done. }
  destruct (fanout_loop r n cb v (targets v) s0 Hv Hinv0 Hle)
    as (st1 & Hrun & Hinv1 & Hv1 & Harr & Htx & Hsize & Hold & Hnew).
  exists st1. split.
  - rewrite (getP2PDiagnostics_unfold st v cb Hv). fold s0 r n.
    unfold mbind, M_bind. unfold mbind, M_bind in Hrun. rewrite Hrun.
    cbn. by rewrite app_nil_r.
  - split; [done|]. split; [done|]. split; [|done].
    rewrite Hsize, (pending_empty r s0 Hnone), map_size_empty. done.
Qed.

(** Well-formedness is an invariant of every run of the console. *)
Lemma closures_allocated_initial : closures_allocated initial.
Proof. intros x r n f Hx. cbn in Hx. by rewrite lookup_empty in Hx. Qed.

(** ** The aggregate completion *)


(** C5.  In a room with no member other than the local peer,
    [getP2PDiagnostics(cb)] returns without calling [cb]: it sends nothing,
    allocates no transaction id and registers nothing (only its empty array
    is created); and along every later run of the console its closure never
    calls [cb]. *)
Theorem diagnostics_empty_room_never_completes st v cb :
  wf st ->
  _vtcObj st = Some v ->
  targets v = [] ->
  let r := length (arrays st) in
  getP2PDiagnostics (Some cb) st
  = Returned VUndefined
      {| _txid := _txid st;
         _transactionMap := _transactionMap st;
         _vtcObj := _vtcObj st;
         arrays := arrays st ++ [[]] |} []
  /\ forall acts st2 evs,
       run acts (state_after (getP2PDiagnostics (Some cb) st) st) = (st2, evs) ->
       completions r evs = [] /\ pending r st2 = ∅.
Proof.
  intros [Hwf Hpos] Hv Ht r.
  assert (_txid st + Z.of_nat (length (targets v)) <= 2 ^ 53) as Hle
    by (rewrite Ht; cbn; lia).
  destruct (getP2PDiagnostics_outcome st v cb Hv (proj1 Hpos) Hle Hwf)
    as (st1 & Hrun & Hinv & Harr & Hsize & Hold & Hnew).
  fold r in Hrun, Hinv, Hsize, Hnew.
  assert (getP2PDiagnostics (Some cb) st
          = Returned VUndefined
              {| _txid := _txid st;
                 _transactionMap := _transactionMap st;
                 _vtcObj := _vtcObj st;
                 arrays := arrays st ++ [[]] |} []) as E.
  { rewrite (getP2PDiagnostics_unfold st v cb Hv), Ht. reflexivity. }
  split; [exact E|].
  intros acts st2 evs Hacts.
  rewrite Hrun in Hacts. cbn [state_after] in Hacts.
  rewrite Ht in Hinv, Hsize. cbn [length] in Hinv, Hsize.
  assert (arrays st1 !!! r = []) as Hres.
  { rewrite Harr. unfold r. by rewrite list_lookup_total_middle. }
  assert (length (arrays st1 !!! r) + size (pending r st1) = 0)%nat as Hsum
    by (rewrite Hres, Hsize; done).
  destruct (run_aggregator r 0 cb acts st1 st2 evs Hinv Hsum Hacts)
    as (_ & Hsum2 & _ & _ & _ & Hcompl).
  rewrite Hsize in Hcompl. split; [exact Hcompl|].
  apply map_size_empty_inv. lia.
Qed.

(** ** Well-formed states *)

Lemma preserves_bind {A B} (P : state -> Prop) (m : M A) (k : A -> M B) :
  preserves P m -> (forall a, preserves P (k a)) -> preserves P (m ≫= k).
Proof.
  intros Hm Hk st HP. specialize (Hm st HP). unfold mbind, M_bind.
  destruct (m st) as [a st1 evs1|]; [|done].
  specialize (Hk a st1 Hm). by destruct (k a st1).
Qed.

Lemma preserves_forEach {A} (P : state -> Prop) (l : list A) (body : A -> M value) :
  (forall x, preserves P (body x)) -> preserves P (forEach l body).
Proof.
  intros Hbody. induction l as [|x l IH]; cbn; [by intros st HP|].
  apply preserves_bind; [apply Hbody|]. intros _. exact IH.
Qed.

Lemma preserves_forPeer peerId c :
  preserves (fun st => wf st /\ registrable c st)
    (getP2PDiagnosticForPeerId peerId (Some c)).
Proof.
  intros st [[Hca Ht] Hc]. destruct peerId as [p|]; [|by cbn].
  destruct (_vtcObj st) as [v|] eqn:Hv; [|by rewrite forPeer_thrown].
  rewrite (forPeer_outcome p c v st Hv).
  split; [split|].
  - intros x r n f Hx. cbn in *.
    destruct (decide (x = _txid st)) as [->|Hne].
    + rewrite lookup_insert_eq in Hx. injection Hx as ->. exact Hc.
    + rewrite lookup_insert_ne in Hx by done. eauto.
  - cbn. pose proof (round_double_succ_bounds _ Ht). lia.
  - by destruct c.
Qed.

Lemma preserves_getP2PDiagnostics completionFn :
  preserves wf (getP2PDiagnostics completionFn).
Proof.
  intros st Hwf. destruct completionFn as [g|]; [|by cbn].
  destruct (_vtcObj st) as [v|] eqn:Hv.
  2:{ unfold getP2PDiagnostics, vtc. unfold mbind, M_bind. by rewrite Hv. }
  rewrite (getP2PDiagnostics_unfold st v g Hv). rewrite Hv.
  set (s0 := {| _txid := _txid st; _transactionMap := _transactionMap st;
                _vtcObj := Some v; arrays := arrays st ++ [[]] |}).
  set (c := AppendDataFn (length (arrays st)) (length (targets v)) g).
  set (loop := forEach (targets v)
                 (fun p => getP2PDiagnosticForPeerId (Some p) (Some c))
               ≫= (fun _ => mret VUndefined)).
  assert (wf s0 /\ registrable c s0) as H0.
  { destruct Hwf as [Hca Ht]. split; [split; [|done]|].
    - intros x r n f Hx. cbn in *. rewrite length_app. apply Hca in Hx. lia.
    - cbn. rewrite length_app. cbn. lia. }
  assert (preserves (fun st => wf st /\ registrable c st) loop) as Hloop.
  { apply preserves_bind.
    - apply preserves_forEach. intros p. apply preserves_forPeer.
    - by intros _ st' HP. }
  specialize (Hloop s0 H0).
  destruct (loop s0) as [ret st1 evs1|]; [|done]. by destruct Hloop.
Qed.

Lemma perform_wf a st ret st1 evs1 :
  wf st -> perform a st = Returned ret st1 evs1 -> wf st1.
Proof.
  intros Hwf Hrun. destruct a as [c peerId content|peerId g|g|v]; cbn in Hrun.
  - destruct (unrecognised content) eqn:Hun.
    { rewrite (unrecognised_dropped c peerId content st Hun) in Hrun.
      by injection Hrun as _ <- _. }
    destruct (recognised_cases content Hun)
      as [(id & Hop & Hid)|(id & Hop & Hid & Hdef)].
    { destruct (_vtcObj st) as [v|] eqn:Hv.
      - rewrite (probe_handled c peerId content id v st Hop Hid Hv) in Hrun.
        by injection Hrun as _ <- _.
      - by rewrite (probe_thrown c peerId content id st Hop Hid Hv) in Hrun. }
    destruct (_transactionMap st !! id) as [transaction|] eqn:Hreg.
    2:{ rewrite (resolve_absent c peerId content id st Hop Hid Hreg) in Hrun.
        by injection Hrun as _ <- _. }
    rewrite (resolve_outcome c peerId content id transaction st
               Hop Hid Hdef Hreg) in Hrun.
    injection Hrun as _ <- _. destruct Hwf as [Hca Ht]. split; [|done].
    intros x r n f Hx. cbn in *. rewrite arrays_after_length.
    apply lookup_delete_Some in Hx as [_ Hx]. eauto.
  - destruct g as [g|]; cbn in Hrun.
    + pose proof (preserves_forPeer peerId (UserFn g) st (conj Hwf I)) as H.
      rewrite Hrun in H. by destruct H.
    + assert (getP2PDiagnosticForPeerId peerId None st
              = Returned (VBool false) st
                  [ConsoleUsage "getP2PDiagnosticForPeerId"]) as E
        by by destruct peerId.
      rewrite E in Hrun. by injection Hrun as _ <- _.
  - pose proof (preserves_getP2PDiagnostics g st Hwf) as H.
    by rewrite Hrun in H.
  - injection Hrun as _ <- _. done.
Qed.

Lemma run_wf acts : forall st st2 evs,
  wf st -> run acts st = (st2, evs) -> wf st2.
Proof.
  induction acts as [|a acts IH]; intros st st2 evs Hwf Hrun; cbn in Hrun.
  - by injection Hrun as <- _.
  - destruct (perform a st) as [ret st1 evs1|] eqn:Hstep; [|by eapply IH].
    destruct (run acts st1) as [st2' evs2] eqn:Hrest.
    injection Hrun as <- _.
    eapply IH; [|exact Hrest]. by eapply perform_wf.
Qed.

Lemma reachable_wf acts st evs : run acts initial = (st, evs) -> wf st.
Proof.
  apply run_wf. split; [apply closures_allocated_initial|].
  cbn. split; [done|]. by vm_compute.
Qed.

(** ** The scenario, run *)

Lemma ready_wf v : wf (Scenario.ready v).
Proof.
  split; [|by vm_compute].
  intros x r n f Hx. cbn in Hx. by rewrite lookup_empty in Hx.
Qed.


Lemma diagnostics_empty_room_never_completes_witness :
  getP2PDiagnostics (Some 5%nat) (Scenario.ready Scenario.roomA)
  = Returned VUndefined
      {| _txid := 0; _transactionMap := ∅;
         _vtcObj := Some Scenario.roomA; arrays := [[]] |} []
  /\ completions 0
       (run [Inbound Scenario.clientA "B" (Scenario.response 0 VNull)]
          (state_after (getP2PDiagnostics (Some 5%nat)
                          (Scenario.ready Scenario.roomA))
             (Scenario.ready Scenario.roomA))).2 = [].
Proof.
  destruct (diagnostics_empty_room_never_completes
              (Scenario.ready Scenario.roomA) Scenario.roomA 5%nat)
    as [E H].
  - apply ready_wf.
  - reflexivity.
  - reflexivity.
  - split; [exact E|].
    match goal with |- completions _ (run ?acts ?s).2 = _ =>
      exact (proj1 (H acts (run acts s).1 (run acts s).2
                      (surjective_pairing (run acts s))))
    end.
Defined.

(** A probe that arrives before [setVtcObject] was called throws: the probe
    branch dereferences [_vtcObj], which is still [null]. *)
Example probe_before_setVtcObject :
  handlePeerMessage Scenario.clientA "B" (Scenario.probe 7) initial = Thrown.
Proof. reflexivity. Qed.

(** The fan-out of the scenario, answered out of order, with a duplicate and
    a stray reply in between. *)
Example fanout_out_of_order :
  let payloadB := Scenario.statusOf "B" ["A"; "C"] in
  let payloadC := Scenario.statusOf "C" ["A"; "B"] in
  let '(st, evs) :=
    run [CallDiagnostics (Some 5%nat);
         Inbound Scenario.clientA "C" (Scenario.response 1 payloadC);
         Inbound Scenario.clientA "C" (Scenario.response 1 payloadC);
         Inbound Scenario.clientA "D" (Scenario.response 9 VNull);
         Inbound Scenario.clientA "B" (Scenario.response 0 payloadB)]
      (Scenario.ready Scenario.roomABC) in
  evs = probes 0 ["B"; "C"]
        ++ [Invoke (AppendDataFn 0 2 5) payloadC;
            ErrorMetricLog (InvalidId 1);
            ErrorMetricLog (InvalidId 9);
            Invoke (AppendDataFn 0 2 5) payloadB;
            Complete 0 5 (VArr [payloadC; payloadB])]
  /\ _transactionMap st = ∅
  /\ _txid st = 2.
Proof. vm_compute. repeat split; reflexivity. Qed.

(** C6.  The value [getP2PDiagnostics] hands to [completionFn] is the
    [results] array: the payloads as they arrived, here the reply of [C]
    before the reply of [B], and not an object keyed by the identifier of
    the queried peer, as the usage text of the function documents it
    ([Object({ peerId : string => structure })]). *)
Example aggregate_is_arrival_array :
  let payloadB := Scenario.statusOf "B" ["A"; "C"] in
  let payloadC := Scenario.statusOf "C" ["A"; "B"] in
  completions 0
    (run [CallDiagnostics (Some 5%nat);
          Inbound Scenario.clientA "C" (Scenario.response 1 payloadC);
          Inbound Scenario.clientA "B" (Scenario.response 0 payloadB)]
       (Scenario.ready Scenario.roomABC)).2
  = [(5%nat, VArr [payloadC; payloadB])]
  /\ VArr [payloadC; payloadB]
     <> VObj {[ "B" := payloadB; "C" := payloadC ]}.
Proof. split; [vm_compute; reflexivity | discriminate]. Qed.

(** * Further properties of the console *)

(** ** What the dispatcher leaves alone *)



(** X2.  Only a probe is answered with regard to who sent it: on every
    other envelope, a "response" in particular, the dispatcher does the
    same whatever the sender and whatever client object it is given, so a
    transaction is resolved by a response from any peer, not only from the
    peer that was probed. *)
Theorem response_sender_unchecked c c' peerId peerId' content st :
  is_probe content = false ->
  handlePeerMessage c peerId content st
  = handlePeerMessage c' peerId' content st.
Proof.
  unfold is_probe, handlePeerMessage.
  destruct (prop content "opcode") as [| |b|n|opcode|l|o]; try done.
  destruct (prop content "id") as [| |b|id|s|l|o]; cbn;
    destruct (String.eqb opcode "testP2PConnection"); try done.
Qed.

Lemma response_sender_unchecked_witness :
  let st := {| _txid := 1; _transactionMap := {[ 0 := UserFn 7 ]};
               _vtcObj := None; arrays := [] |} in
  handlePeerMessage Scenario.clientA "B" (Scenario.response 0 VNull) st
  = handlePeerMessage
      {| getId := "Z"; getConnectStatus := fun _ => VNull |} "mallory"
      (Scenario.response 0 VNull) st.
Proof.
  intros st.
  apply (response_sender_unchecked Scenario.clientA _ "B" "mallory"
           (Scenario.response 0 VNull) st).
  reflexivity.
Defined.

(** ** Replies and the transactions they resolve *)


(** What the dispatcher can do to the registry: nothing, or delete the
    entry a response names. *)
Lemma dispatcher_registry c peerId content st ret st1 evs :
  handlePeerMessage c peerId content st = Returned ret st1 evs ->
  _txid st1 = _txid st
  /\ (_transactionMap st1 = _transactionMap st
      \/ exists id,
           prop content "opcode" = VStr "response"
           /\ prop content "id" = VNum id
           /\ defined (prop content "data") = true
           /\ _transactionMap st1 = delete id (_transactionMap st)).
Proof.
  intros Hrun.
  destruct (unrecognised content) eqn:Hun.
  { rewrite (unrecognised_dropped c peerId content st Hun) in Hrun.
    injection Hrun as _ <- _. auto. }
  destruct (recognised_cases content Hun)
    as [(id & Hop & Hid)|(id & Hop & Hid & Hdef)].
  { destruct (_vtcObj st) as [v|] eqn:Hv.
    - rewrite (probe_handled c peerId content id v st Hop Hid Hv) in Hrun.
      injection Hrun as _ <- _. auto.
    - by rewrite (probe_thrown c peerId content id st Hop Hid Hv) in Hrun. }
  destruct (_transactionMap st !! id) as [transaction|] eqn:Hreg.
  - rewrite (resolve_outcome c peerId content id transaction st
               Hop Hid Hdef Hreg) in Hrun.
    injection Hrun as _ <- _. cbn. split; [done|]. right. by exists id.
  - rewrite (resolve_absent c peerId content id st Hop Hid Hreg) in Hrun.
    injection Hrun as _ <- _. auto.
Qed.



(** ** A probe, end to end *)



(** ** Invariants of the counter and the registry along runs *)

Section CounterRegistry.
(** A property of the counter and the registry that survives registering
    under the identifier just issued, and resolving the transactions the
    admitted events name. *)
Context (P : Z -> gmap Z callback -> Prop) (admitted : action -> Prop).
Hypothesis P_register : forall t m c,
  0 <= t <= 2 ^ 53 -> P t m -> P (round_double (t + 1)) (<[t := c]> m).
Hypothesis P_resolve : forall c peerId content id t m,
  admitted (Inbound c peerId content) ->
  prop content "opcode" = VStr "response" ->
  prop content "id" = VNum id ->
  defined (prop content "data") = true ->
  P t m -> P t (delete id m).

Lemma inv_forPeer peerId c :
  preserves (fun s => P (_txid s) (_transactionMap s) /\ wf s /\ registrable c s)
    (getP2PDiagnosticForPeerId peerId (Some c)).
Proof.
  intros st (HP & Hwf & Hc).
  pose proof (preserves_forPeer peerId c st (conj Hwf Hc)) as Hpres.
  destruct peerId as [p|]; [|by cbn].
  destruct (_vtcObj st) as [v|] eqn:Hv; [|by rewrite forPeer_thrown].
  rewrite (forPeer_outcome p c v st Hv) in *.
  split; [|exact Hpres]. cbn. apply P_register; [apply Hwf|done].
Qed.

Lemma inv_getP2PDiagnostics g :
  preserves (fun s => P (_txid s) (_transactionMap s) /\ wf s)
    (getP2PDiagnostics g).
Proof.
  intros st [HP Hwf]. destruct g as [g|]; [|by cbn].
  destruct (_vtcObj st) as [v|] eqn:Hv.
  2:{ unfold getP2PDiagnostics, vtc. unfold mbind, M_bind. by rewrite Hv. }
  rewrite (getP2PDiagnostics_unfold st v g Hv). rewrite Hv.
  set (s0 := {| _txid := _txid st; _transactionMap := _transactionMap st;
                _vtcObj := Some v; arrays := arrays st ++ [[]] |}).
  set (c := AppendDataFn (length (arrays st)) (length (targets v)) g).
  set (loop := forEach (targets v)
                 (fun p => getP2PDiagnosticForPeerId (Some p) (Some c))
               ≫= (fun _ => mret VUndefined)).
  assert (P (_txid s0) (_transactionMap s0) /\ wf s0 /\ registrable c s0) as H0.
  { split; [done|]. destruct Hwf as [Hca Ht]. split; [split; [|done]|].
    - intros x r n f Hx. cbn in *. rewrite length_app. apply Hca in Hx. lia.
    - cbn. rewrite length_app. cbn. lia. }
  assert (preserves
            (fun s => P (_txid s) (_transactionMap s) /\ wf s /\ registrable c s)
            loop) as Hloop.
  { apply preserves_bind.
    - apply preserves_forEach. intros p. apply inv_forPeer.
    - by intros _ st' HP'. }
  specialize (Hloop s0 H0).
  destruct (loop s0) as [ret st1 evs1|]; [|done].
  destruct Hloop as (? & ? & _). done.
Qed.

Lemma inv_perform a st ret st1 evs1 :
  admitted a ->
  P (_txid st) (_transactionMap st) -> wf st ->
  perform a st = Returned ret st1 evs1 ->
  P (_txid st1) (_transactionMap st1) /\ wf st1.
Proof.
  intros Hadm HP Hwf Hrun.
  split; [|by eapply perform_wf].
  destruct a as [c peerId content|peerId g|g|v]; cbn in Hrun.
  - destruct (dispatcher_registry c peerId content st ret st1 evs1 Hrun)
      as [Ht [Hm|(id & Hop & Hid & Hdef & Hm)]]; rewrite Ht, Hm; [done|].
    by eapply P_resolve.
  - destruct g as [g|]; cbn in Hrun.
    + pose proof (inv_forPeer peerId (UserFn g) st (conj HP (conj Hwf I))) as H.
      rewrite Hrun in H. by destruct H.
    + assert (getP2PDiagnosticForPeerId peerId None st
              = Returned (VBool false) st
                  [ConsoleUsage "getP2PDiagnosticForPeerId"]) as E
        by by destruct peerId.
      rewrite E in Hrun. by injection Hrun as _ <- _.
  - pose proof (inv_getP2PDiagnostics g st (conj HP Hwf)) as H.
    rewrite Hrun in H. by destruct H.
  - by injection Hrun as _ <- _.
Qed.

Lemma inv_run acts : forall st st2 evs,
  Forall admitted acts ->
  P (_txid st) (_transactionMap st) -> wf st ->
  run acts st = (st2, evs) ->
  P (_txid st2) (_transactionMap st2) /\ wf st2.
Proof.
  induction acts as [|a acts IH]; intros st st2 evs Hadm HP Hwf Hrun;
    cbn in Hrun.
  - by injection Hrun as <- _.
  - apply Forall_cons in Hadm as [Ha Hadm].
    destruct (perform a st) as [ret st1 evs1|] eqn:Hstep; [|by eapply IH].
    destruct (run acts st1) as [st2' evs2] eqn:Hrest.
    injection Hrun as <- _.
    destruct (inv_perform a st ret st1 evs1 Ha HP Hwf Hstep) as [HP1 Hwf1].
    by eapply IH.
Qed.
End CounterRegistry.

Lemma wf_initial : wf initial.
Proof.
  split; [apply closures_allocated_initial|]. cbn. split; [done|]. by vm_compute.
Qed.

(** X6.  Along every run of the console, from a well-formed state, the
    counter never decreases and never leaves the range [0 .. 2^53]. *)
Theorem counter_monotone acts st st2 evs :
  wf st ->
  run acts st = (st2, evs) ->
  _txid st <= _txid st2 <= 2 ^ 53.
Proof.
  intros Hwf Hrun.
  destruct (inv_run (fun t _ => _txid st <= t) (fun _ => True)) with
    (acts := acts) (st := st) (st2 := st2) (evs := evs) as [Hle Hwf2].
  - intros t m c Ht Hle. pose proof (round_double_succ_bounds t Ht). lia.
  - done.
  - by apply Forall_forall.
  - lia.
  - done.
  - done.
  - split; [done|]. apply Hwf2.
Qed.

Lemma counter_monotone_witness :
  0 <= _txid (run [CallSetVtcObject Scenario.roomABC;
                   CallDiagnostics (Some 5%nat)] initial).1 <= 2 ^ 53.
Proof.
  apply (counter_monotone
           [CallSetVtcObject Scenario.roomABC; CallDiagnostics (Some 5%nat)]
           initial _
           (run [CallSetVtcObject Scenario.roomABC;
                 CallDiagnostics (Some 5%nat)] initial).2).
  - apply wf_initial.
  - apply surjective_pairing.
Defined.

Lemma ids_issued_run acts st st2 evs :
  wf st -> ids_issued st -> run acts st = (st2, evs) -> ids_issued st2.
Proof.
  intros Hwf Hids Hrun.
  destruct (inv_run
              (fun t m => forall x, is_Some (m !! x) ->
                            0 <= x /\ (x < t \/ t = 2 ^ 53))
              (fun _ => True)) with
    (acts := acts) (st := st) (st2 := st2) (evs := evs) as [H _];
    try done.
  - intros t m c Ht HP x Hx.
    pose proof (round_double_succ_bounds t Ht) as Hb.
    destruct (decide (x = t)) as [->|Hne].
    + split; [lia|]. destruct (decide (t = 2 ^ 53)) as [->|Hlt].
      * right. apply round_double_limit.
      * left. rewrite round_double_exact; lia.
    + rewrite lookup_insert_ne in Hx by done.
      destruct (HP x Hx) as [H0 [Hlt| ->]]; [split; [done|left; lia]|].
      split; [done|]. right. apply round_double_limit.
  - intros c peerId content id t m _ _ _ _ HP x Hx.
    apply HP. apply lookup_delete_is_Some in Hx. apply Hx.
  - by apply Forall_forall.
Qed.

(** X5.  In every state the console reaches from its initial state, as
    long as the counter is below [2^53], [getP2PDiagnosticForPeerId] with
    both arguments registers the callback under an identifier that was not
    registered, so it overwrites no pending transaction; it sends exactly
    one probe, carrying that identifier, and adds one to the counter. *)
Theorem single_probe_uses_fresh_id acts st evs v peerId cb :
  run acts initial = (st, evs) ->
  _vtcObj st = Some v ->
  _txid st < 2 ^ 53 ->
  _transactionMap st !! _txid st = None
  /\ getP2PDiagnosticForPeerId (Some peerId) (Some cb) st
     = Returned VUndefined
         {| _txid := _txid st + 1;
            _transactionMap := <[_txid st := cb]> (_transactionMap st);
            _vtcObj := _vtcObj st;
            arrays := arrays st |}
         [SendPeerMessage peerId "debug"
            {[ "opcode" := VStr "testP2PConnection";
               "id" := VNum (_txid st) ]}].
Proof.
  intros Hrun Hv Hlt.
  assert (ids_issued initial) as Hinit.
  { intros x [cb' Hx]. cbn in Hx. by rewrite lookup_empty in Hx. }
  pose proof (ids_issued_run acts initial st evs wf_initial Hinit Hrun) as Hids.
  pose proof (run_wf acts initial st evs wf_initial Hrun) as [_ Ht].
  split.
  - destruct (_transactionMap st !! _txid st) as [cb'|] eqn:E; [|done].
    destruct (Hids (_txid st)) as [_ [?|?]]; [by eexists|lia|lia].
  - rewrite (forPeer_outcome peerId cb v st Hv).
    by rewrite round_double_exact by lia.
Qed.

Lemma single_probe_uses_fresh_id_witness :
  let st := (run [CallSetVtcObject Scenario.roomABC;
                  CallDiagnosticForPeerId (Some "B") (Some 7%nat)] initial).1 in
  _transactionMap st !! _txid st = None.
Proof.
  intros st.
  apply (single_probe_uses_fresh_id
           [CallSetVtcObject Scenario.roomABC;
            CallDiagnosticForPeerId (Some "B") (Some 7%nat)]
           st
           (run [CallSetVtcObject Scenario.roomABC;
                 CallDiagnosticForPeerId (Some "B") (Some 7%nat)] initial).2
           Scenario.roomABC "C" (UserFn 8)).
  - apply surjective_pairing.
  - reflexivity.
  - vm_compute. reflexivity.
Defined.

(** X7.  A pending transaction is removed by nothing but a response that
    names it: along every run in which no inbound response carries the
    identifier [x], whatever else arrives and whichever entry points are
    called, [x] stays registered with the same callback.  There is no
    timeout and no cancellation. *)
Theorem pending_until_named acts st st2 evs x cb :
  wf st ->
  x < _txid st ->
  _transactionMap st !! x = Some cb ->
  Forall (fun a => resolves x a = false) acts ->
  run acts st = (st2, evs) ->
  _transactionMap st2 !! x = Some cb.
Proof.
  intros Hwf Hlt Hreg Hacts Hrun.
  destruct (inv_run (fun t m => x < t /\ m !! x = Some cb)
              (fun a => resolves x a = false)) with
    (acts := acts) (st := st) (st2 := st2) (evs := evs) as [[_ H] _];
    try done.
  - intros t m c Ht [Hx Hm].
    pose proof (round_double_succ_bounds t Ht) as Hb.
    split; [lia|]. rewrite lookup_insert_ne by lia. done.
  - intros c peerId content id t m Hres Hop Hid Hdef [Hx Hm].
    split; [done|].
    cbn in Hres. rewrite Hop, Hid, Hdef in Hres. cbn in Hres.
    apply Z.eqb_neq in Hres. by rewrite lookup_delete_ne.
Qed.

Lemma pending_until_named_witness :
  let st := {| _txid := 2;
               _transactionMap := {[ 0 := UserFn 7; 1 := UserFn 8 ]};
               _vtcObj := Some Scenario.roomABC; arrays := [] |} in
  _transactionMap
    (run [Inbound Scenario.clientA "C" (Scenario.response 1 VNull);
          Inbound Scenario.clientA "B" (Scenario.probe 0);
          CallDiagnostics (Some 5%nat)] st).1 !! 0
  = Some (UserFn 7).
Proof.
  intros st.
  apply (pending_until_named
           [Inbound Scenario.clientA "C" (Scenario.response 1 VNull);
            Inbound Scenario.clientA "B" (Scenario.probe 0);
            CallDiagnostics (Some 5%nat)]
           st _
           (run [Inbound Scenario.clientA "C" (Scenario.response 1 VNull);
                 Inbound Scenario.clientA "B" (Scenario.probe 0);
                 CallDiagnostics (Some 5%nat)] st).2 0 (UserFn 7)).
  - split; [|by vm_compute].
    intros x r n f Hx. cbn in Hx.
    destruct (decide (x = 0)) as [->|H0]; [by rewrite lookup_insert_eq in Hx|].
    rewrite lookup_insert_ne in Hx by done.
    destruct (decide (x = 1)) as [->|H1]; [by rewrite lookup_singleton_eq in Hx|].
    by rewrite lookup_singleton_ne in Hx.
  - reflexivity.
  - reflexivity.
  - repeat constructor.
  - apply surjective_pairing.
Defined.

(** ** Once set up, nothing throws *)

Lemma forEach_forPeer_returns c (l : list string) : forall st,
  is_Some (_vtcObj st) ->
  exists st1 evs1,
    forEach l (fun p => getP2PDiagnosticForPeerId (Some p) (Some c)) st
    = Returned tt st1 evs1
    /\ _vtcObj st1 = _vtcObj st.
Proof.
  induction l as [|p l IH]; intros st [v Hv]; cbn [forEach].
  - by eexists _, _.
  - unfold mbind, M_bind. rewrite (forPeer_outcome p c v st Hv).
    edestruct IH as (st1 & evs1 & -> & Hv1); [|by eexists _, _].
    cbn. by rewrite Hv.
Qed.

Lemma perform_returns a st :
  is_Some (_vtcObj st) ->
  exists ret st1 evs1,
    perform a st = Returned ret st1 evs1 /\ is_Some (_vtcObj st1).
Proof.
  intros [v Hv]. destruct a as [c peerId content|peerId g|g|v']; cbn [perform].
  - destruct (unrecognised content) eqn:Hun.
    { rewrite (unrecognised_dropped c peerId content st Hun).
      eexists _, _, _. split; [done|]. by rewrite Hv. }
    destruct (recognised_cases content Hun)
      as [(id & Hop & Hid)|(id & Hop & Hid & Hdef)].
    { rewrite (probe_handled c peerId content id v st Hop Hid Hv).
      eexists _, _, _. split; [done|]. by rewrite Hv. }
    destruct (_transactionMap st !! id) as [transaction|] eqn:Hreg.
    + rewrite (resolve_outcome c peerId content id transaction st
                 Hop Hid Hdef Hreg).
      eexists _, _, _. split; [done|]. cbn. by rewrite Hv.
    + rewrite (resolve_absent c peerId content id st Hop Hid Hreg).
      eexists _, _, _. split; [done|]. by rewrite Hv.
  - destruct peerId as [p|], g as [g|]; cbn [fmap option_fmap option_map];
      try (eexists _, _, _; split; [reflexivity|]; by rewrite Hv).
    rewrite (forPeer_outcome p (UserFn g) v st Hv).
    eexists _, _, _. split; [done|]. cbn. by rewrite Hv.
  - destruct g as [g|];
      [|eexists _, _, _; split; [reflexivity|]; by rewrite Hv].
    rewrite (getP2PDiagnostics_unfold st v g Hv).
    edestruct (forEach_forPeer_returns
                 (AppendDataFn (length (arrays st)) (length (targets v)) g)
                 (targets v)
                 {| _txid := _txid st; _transactionMap := _transactionMap st;
                    _vtcObj := _vtcObj st; arrays := arrays st ++ [[]] |})
      as (st1 & evs1 & Hloop & Hv1); [cbn; by rewrite Hv|].
    unfold mbind, M_bind. rewrite Hloop. cbn.
    eexists _, _, _. split; [done|]. rewrite Hv1. cbn. by rewrite Hv.
  - eexists _, _, _. split; [reflexivity|]. by cbn.
Qed.

(** X8.  Once [setVtcObject] has been called with a VTC object, no inbound
    message and no call of an entry point resets [_vtcObj], and from then on
    none of them throws: every event of every later run returns normally.
    Registered callbacks are functions that return. *)
Theorem set_up_console_never_throws acts st st2 evs :
  is_Some (_vtcObj st) ->
  run acts st = (st2, evs) ->
  is_Some (_vtcObj st2) /\ throws acts st = 0%nat.
Proof.
  revert st st2 evs.
  induction acts as [|a acts IH]; intros st st2 evs Hv Hrun; cbn in *.
  - by injection Hrun as <- _.
  - destruct (perform_returns a st Hv) as (ret & st1 & evs1 & Hstep & Hv1).
    rewrite Hstep in *.
    destruct (run acts st1) as [st2' evs2] eqn:Hrest.
    injection Hrun as <- _. by eapply IH.
Qed.

Lemma set_up_console_never_throws_witness :
  throws [Inbound Scenario.clientA "B" (Scenario.probe 3);
          CallDiagnostics (Some 5%nat);
          Inbound Scenario.clientA "B" ∅]
    (Scenario.ready Scenario.roomABC) = 0%nat.
Proof.
  apply (set_up_console_never_throws
           [Inbound Scenario.clientA "B" (Scenario.probe 3);
            CallDiagnostics (Some 5%nat);
            Inbound Scenario.clientA "B" ∅]
           (Scenario.ready Scenario.roomABC)
           (run [Inbound Scenario.clientA "B" (Scenario.probe 3);
                 CallDiagnostics (Some 5%nat);
                 Inbound Scenario.clientA "B" ∅]
              (Scenario.ready Scenario.roomABC)).1
           (run [Inbound Scenario.clientA "B" (Scenario.probe 3);
                 CallDiagnostics (Some 5%nat);
                 Inbound Scenario.clientA "B" ∅]
              (Scenario.ready Scenario.roomABC)).2).
  - by eexists.
  - apply surjective_pairing.
Defined.

(** ** Console queries *)

Lemma console_queries_outcome p v st :
  _vtcObj st = Some v ->
  remoteMute (Some p) st
  = Returned VUndefined st
      [SendPeerMessage p "mic-control" {[ "enabled" := VBool false ]}]
  /\ getP2PConnectStatusTo (Some p) st
     = Returned (getConnectStatus (client v) p) st [].
Proof.
  intros Hv. unfold remoteMute, getP2PConnectStatusTo, vtc. unfold_M.
  by rewrite Hv.
Qed.

(** X21.  [remoteMute] and [getP2PConnectStatusTo] are read-only queries.
    Each returns unless it is given a peer while no VTC object is set, in
    which case it throws; called without a peer it returns [false] before
    [_vtcObj] is read.  Neither changes the console: no transaction
    identifier is used and no transaction is registered or resolved, so
    pending diagnostics are not disturbed.  Given a peer, [remoteMute]
    sends that peer exactly one ['mic-control'] message [{enabled: false}]
    and [getP2PConnectStatusTo] returns the transport's status for it. *)
Theorem console_queries_read_only peerId st :
  (returns (remoteMute peerId st) <-> peerId = None \/ is_Some (_vtcObj st))
  /\ (returns (getP2PConnectStatusTo peerId st)
      <-> peerId = None \/ is_Some (_vtcObj st))
  /\ state_after (remoteMute peerId st) st = st
  /\ state_after (getP2PConnectStatusTo peerId st) st = st
  /\ (peerId = None ->
      remoteMute peerId st
      = Returned (VBool false) st [ConsoleUsage "remoteMute"]
      /\ getP2PConnectStatusTo peerId st
         = Returned (VBool false) st [ConsoleUsage "getP2PConnectStatusTo"])
  /\ (forall p v, peerId = Some p -> _vtcObj st = Some v ->
        remoteMute peerId st
        = Returned VUndefined st
            [SendPeerMessage p "mic-control" {[ "enabled" := VBool false ]}]
        /\ getP2PConnectStatusTo peerId st
           = Returned (getConnectStatus (client v) p) st []).
Proof.
  destruct peerId as [p|].
  - destruct (_vtcObj st) as [v|] eqn:Hv.
    + destruct (console_queries_outcome p v st Hv) as [-> ->]. cbn.
      split; [by split; eauto|]. split; [by split; eauto|].
      split; [done|]. split; [done|]. split; [done|].
      by intros p' v' [= <-] [= <-].
    + assert (remoteMute (Some p) st = Thrown
              /\ getP2PConnectStatusTo (Some p) st = Thrown) as [-> ->].
      { unfold remoteMute, getP2PConnectStatusTo, vtc. unfold_M.
        by rewrite Hv. }
      cbn. split; [by split; [|intros [|[]]]|].
      split; [by split; [|intros [|[]]]|]. done.
  - cbn. split; [by split; eauto|]. split; [by split; eauto|]. done.
Qed.

Lemma console_queries_read_only_witness :
  remoteMute (Some "B") (Scenario.ready Scenario.roomABC)
  = Returned VUndefined (Scenario.ready Scenario.roomABC)
      [SendPeerMessage "B" "mic-control" {[ "enabled" := VBool false ]}]
  /\ getP2PConnectStatusTo (Some "B") (Scenario.ready Scenario.roomABC)
     = Returned (VStr "connected to B") (Scenario.ready Scenario.roomABC) [].
Proof.
  exact (proj2 (proj2 (proj2 (proj2 (proj2
           (console_queries_read_only (Some "B")
              (Scenario.ready Scenario.roomABC))))))
           "B" Scenario.roomABC eq_refl eq_refl).
Defined.

(** * Properties of the chat panel *)

Ltac unfold_C :=
  unfold mbind, Chat.C_bind, mret, Chat.C_ret, Chat.emit, Chat.gets,
    Chat.modify in *.

Lemma chat_set_calls_id st :
  Chat.set_calls (Chat.randomCalls st) (Chat.dateCalls st) st = st.
Proof. by destruct st. Qed.

(** The loop of [_generateUniqueColor]: it draws [k <= tries] further
    colours, touches nothing else, and when it stops with tries left the
    colour it holds is not in use. *)
Lemma chat_retry_spec E tries : forall c st,
  exists k c',
    (k <= tries)%nat
    /\ Chat.retry E tries c st
       = (((tries - k)%nat, c'),
          Chat.set_calls (Chat.randomCalls st + k) (Chat.dateCalls st) st, [])
    /\ ((tries - k)%nat <> 0%nat -> c' ∉ Chat.colorsUsed st).
Proof.
  induction tries as [|tries IH]; intros c st.
  - exists 0%nat, c. split; [lia|]. split; [|done].
    cbn. by rewrite Nat.add_0_r, chat_set_calls_id.
  - cbn [Chat.retry]. unfold_C. cbn.
    destruct (bool_decide (c ∈ Chat.colorsUsed st)) eqn:Hused.
    + destruct (IH (Chat.hsl (Chat.randomHue E (Chat.randomCalls st)))
                  (Chat.set_calls (S (Chat.randomCalls st)) (Chat.dateCalls st) st))
        as (k & c' & Hk & Hrun & Hfresh).
      exists (S k), c'. split; [lia|]. unfold Chat.getRandomColor.
      rewrite Hrun. cbn. split; [|exact Hfresh].
      by rewrite Nat.add_succ_r.
    + exists 0%nat, c. split; [lia|]. cbn.
      rewrite Nat.add_0_r, chat_set_calls_id. split; [done|].
      intros _. by apply bool_decide_eq_false in Hused.
Qed.

Lemma chat_generate_cases E peerId st :
  exists k c,
    (1 <= k <= 6)%nat
    /\ (((c ∉ Chat.colorsUsed st)
         /\ Chat._generateUniqueColor E peerId st
            = (c,
               Chat.set_colors (insert peerId c) (fun l => l ++ [c])
                 (Chat.set_calls (Chat.randomCalls st + k) (Chat.dateCalls st) st),
               []))
        \/ Chat._generateUniqueColor E peerId st
           = (Chat.black,
              Chat.set_calls (Chat.randomCalls st + k) (Chat.dateCalls st) st,
              [Chat.ErrorMetricLog (Chat.NoRandomColor peerId)])).
Proof.
  unfold Chat._generateUniqueColor, Chat.getRandomColor. unfold_C.
  destruct (chat_retry_spec E 5
              (Chat.hsl (Chat.randomHue E (Chat.randomCalls st)))
              (Chat.set_calls (S (Chat.randomCalls st)) (Chat.dateCalls st) st))
    as (k & c & Hk & Hrun & Hfresh).
  exists (S k), c. split; [lia|]. rewrite Hrun. cbn [fst snd].
  cbn [Chat.randomCalls Chat.dateCalls Chat.set_calls] in *.
  replace (S (Chat.randomCalls st) + k)%nat
    with (Chat.randomCalls st + S k)%nat by lia.
  destruct (5 - k =? 0)%nat eqn:Hz.
  - right. reflexivity.
  - left. apply Nat.eqb_neq in Hz. split; [by apply Hfresh|]. reflexivity.
Qed.

(** X9.  [_generateUniqueColor] draws between one and six random colours
    and touches nothing but the two colour tables: either it returns a
    colour that was not in use, appends it to [colorsUsed] and records it
    for the peer, or it logs, returns the fallback black and records
    nothing. *)
Theorem chat_generateUniqueColor_spec E peerId st :
  exists k c,
    (1 <= k <= 6)%nat
    /\ (((c ∉ Chat.colorsUsed st)
         /\ Chat._generateUniqueColor E peerId st
            = (c,
               Chat.set_colors (insert peerId c) (fun l => l ++ [c])
                 (Chat.set_calls (Chat.randomCalls st + k) (Chat.dateCalls st) st),
               []))
        \/ Chat._generateUniqueColor E peerId st
           = (Chat.black,
              Chat.set_calls (Chat.randomCalls st + k) (Chat.dateCalls st) st,
              [Chat.ErrorMetricLog (Chat.NoRandomColor peerId)])).
Proof. apply chat_generate_cases. Qed.

Lemma chat_gives_up E peerId st :
  (forall i, (i < 5)%nat ->
     Chat.hsl (Chat.randomHue E (Chat.randomCalls st + i)) ∈ Chat.colorsUsed st) ->
  Chat._generateUniqueColor E peerId st
  = (Chat.black,
     Chat.set_calls (Chat.randomCalls st + 6) (Chat.dateCalls st) st,
     [Chat.ErrorMetricLog (Chat.NoRandomColor peerId)]).
Proof.
  intros Hused.
  unfold Chat._generateUniqueColor, Chat.getRandomColor. unfold_C.
  cbn [Chat.retry]. unfold_C. unfold Chat.getRandomColor.
  cbn [Chat.randomCalls Chat.dateCalls Chat.colorsUsed Chat.set_calls].
  pose proof (Hused 0%nat ltac:(lia)) as H0.
  pose proof (Hused 1%nat ltac:(lia)) as H1.
  pose proof (Hused 2%nat ltac:(lia)) as H2.
  pose proof (Hused 3%nat ltac:(lia)) as H3.
  pose proof (Hused 4%nat ltac:(lia)) as H4.
  rewrite Nat.add_0_r in H0.
  replace (Chat.randomCalls st + 1)%nat with (S (Chat.randomCalls st)) in H1 by lia.
  replace (Chat.randomCalls st + 2)%nat
    with (S (S (Chat.randomCalls st))) in H2 by lia.
  replace (Chat.randomCalls st + 3)%nat
    with (S (S (S (Chat.randomCalls st)))) in H3 by lia.
  replace (Chat.randomCalls st + 4)%nat
    with (S (S (S (S (Chat.randomCalls st))))) in H4 by lia.
  rewrite !bool_decide_eq_true_2 by assumption. cbn.
  replace (Chat.randomCalls st + 6)%nat
    with (S (S (S (S (S (S (Chat.randomCalls st))))))) by lia.
  reflexivity.
Qed.

(** X10.  [_generateUniqueColor] gives up on its fifth retry whatever that
    retry drew: when the first five colours drawn are in use, the sixth is
    drawn but never looked at, and the result is the fallback black with
    nothing recorded, even if the sixth colour was free. *)
Theorem chat_fifth_retry_discarded E peerId st :
  (forall i, (i < 5)%nat ->
     Chat.hsl (Chat.randomHue E (Chat.randomCalls st + i)) ∈ Chat.colorsUsed st) ->
  Chat._generateUniqueColor E peerId st
  = (Chat.black,
     Chat.set_calls (Chat.randomCalls st + 6) (Chat.dateCalls st) st,
     [Chat.ErrorMetricLog (Chat.NoRandomColor peerId)]).
Proof. apply chat_gives_up. Qed.

Lemma chat_fifth_retry_discarded_witness :
  let E := {| Chat.randomHue := fun n => if (n <? 5)%nat then 1 else 2;
              Chat.handleCommand := fun _ => false;
              Chat.clock := fun _ => (0, 0, 0)%nat |} in
  let st := Chat.set_colors (fun m => m) (fun _ => [Chat.hsl 1])
              (Chat.Chat "room") in
  (Chat.hsl 2 ∉ Chat.colorsUsed st)
  /\ Chat._generateUniqueColor E "B" st
     = (Chat.black, Chat.set_calls 6 0 st,
        [Chat.ErrorMetricLog (Chat.NoRandomColor "B")]).
Proof.
  intros E st. split.
  - vm_compute. intros H. apply list_elem_of_singleton in H. discriminate.
  - apply (chat_fifth_retry_discarded E "B" st).
    intros i Hi.
    destruct i as [|[|[|[|[|i]]]]]; try lia;
      apply list_elem_of_singleton; reflexivity.
Defined.

(** ** Entering, leaving and the colour tables *)

Lemma chat_splice_first_notin x l : x ∉ l -> Chat.splice_first x l = l.
Proof.
  induction l as [|y l IH]; intros Hx; cbn; [done|].
  apply not_elem_of_cons in Hx as [Hne Hx].
  destruct (String.eqb_spec y x) as [->|_]; [done|]. by rewrite IH.
Qed.

Lemma chat_splice_first_app x l : x ∉ l -> Chat.splice_first x (l ++ [x]) = l.
Proof.
  induction l as [|y l IH]; intros Hx; cbn.
  - by rewrite String.eqb_refl.
  - apply not_elem_of_cons in Hx as [Hne Hx].
    destruct (String.eqb_spec y x) as [->|_]; [done|]. by rewrite IH.
Qed.

Lemma chat_splice_first_elem x y l :
  y ∈ Chat.splice_first x l -> y ∈ l.
Proof.
  induction l as [|z l IH]; cbn; [done|].
  destruct (String.eqb_spec z x) as [->|_]; intros Hy.
  - by apply list_elem_of_further.
  - apply elem_of_cons in Hy as [->|Hy]; [apply list_elem_of_here|].
    apply list_elem_of_further. by apply IH.
Qed.

Lemma chat_splice_first_other x y l :
  y <> x -> y ∈ l -> y ∈ Chat.splice_first x l.
Proof.
  intros Hne. induction l as [|z l IH]; cbn; [done|].
  intros Hy. apply elem_of_cons in Hy as [->|Hy].
  - destruct (String.eqb_spec z x) as [->|_]; [done|apply list_elem_of_here].
  - destruct (String.eqb_spec z x) as [->|_]; [done|].
    apply list_elem_of_further. by apply IH.
Qed.

Lemma chat_splice_first_nodup x l : NoDup l -> NoDup (Chat.splice_first x l).
Proof.
  induction l as [|z l IH]; cbn; [done|].
  intros Hnd. apply NoDup_cons in Hnd as [Hz Hnd].
  destruct (String.eqb_spec z x) as [->|_]; [done|].
  apply NoDup_cons. split; [|by apply IH].
  intros Hin. apply Hz. by eapply chat_splice_first_elem.
Qed.

Lemma chat_splice_first_removed x l : NoDup l -> x ∉ Chat.splice_first x l.
Proof.
  induction l as [|z l IH]; cbn; [intros _; apply not_elem_of_nil|].
  intros Hnd. apply NoDup_cons in Hnd as [Hz Hnd].
  destruct (String.eqb_spec z x) as [->|Hne]; [done|].
  apply not_elem_of_cons. split; [congruence|by apply IH].
Qed.

(** The notification of a status change, shown unless the peer is the
    local user or notifications are off. *)
Lemma chat_notify_outcome title msg ttl st :
  Chat._notify title msg ttl st
  = (tt, st,
     if Chat.showNotifications st
     then [Chat.Notification title msg (default 3 ttl)] else []).
Proof. unfold Chat._notify. unfold_C. by destruct (Chat.showNotifications st). Qed.

(** [userEntered] once the chat is initialised, computed from what
    [_generateUniqueColor] returned. *)
Lemma chat_userEntered_outcome E peerId userName me st c st1 evs1 :
  Chat.thisPeerId st = Some me ->
  Chat._generateUniqueColor E peerId st = (c, st1, evs1) ->
  Chat.userEntered E peerId userName st
  = (tt, Chat.set_peerIdMap (insert peerId userName) st1,
     evs1
     ++ (if negb (String.eqb me peerId) && Chat.showNotifications st1
         then [Chat.Notification "Room Status"
                 (userName +:+ " (" +:+ peerId +:+ ") has entered the room") 3]
         else [])
     ++ [Chat.AppendLine
           (Chat.userEnteredTmpl c userName peerId (Chat.roomName st1))]).
Proof.
  intros Hme Hgen. unfold Chat.userEntered. unfold_C. rewrite Hme, Hgen.
  destruct (negb (String.eqb me peerId)); cbn.
  - rewrite chat_notify_outcome. cbn.
    by destruct (Chat.showNotifications st1).
  - done.
Qed.

(** [userLeft] for a peer that has a colour, once the chat is
    initialised. *)
Lemma chat_userLeft_outcome peerId me c st :
  Chat.thisPeerId st = Some me ->
  Chat.peerColorMap st !! peerId = Some c ->
  Chat.userLeft peerId st
  = (tt, Chat.set_colors (delete peerId) (Chat.splice_first c) st,
     (if negb (String.eqb me peerId) && Chat.showNotifications st
      then [Chat.Notification "Room Status"
              (Chat.to_string (Chat._peerIdMap st !! peerId) +:+ " ("
               +:+ peerId +:+ ") has left the room") 3]
      else [])
     ++ [Chat.AppendLine
           (Chat.userLeftTmpl c (Chat._peerIdMap st !! peerId) peerId
              (Chat.roomName st))]).
Proof.
  intros Hme Hc. unfold Chat.userLeft. unfold_C. rewrite Hme, Hc.
  destruct (negb (String.eqb me peerId)); cbn;
    rewrite ?chat_notify_outcome; cbn;
    destruct (Chat.showNotifications st); cbn;
    destruct (bool_decide (c ∈ Chat.colorsUsed st)) eqn:Hu; cbn; try done;
    apply bool_decide_eq_false in Hu;
    unfold Chat.set_colors; cbn;
    by rewrite (chat_splice_first_notin c _ Hu).
Qed.

Lemma chat_addMessage_unknown E peerId message me st :
  Chat.thisPeerId st = Some me ->
  Chat.peerColorMap st !! peerId = None
  \/ Chat._peerIdMap st !! peerId = None ->
  Chat.addMessage E peerId message st
  = (tt, st, [Chat.ErrorMetricLog (Chat.MessageInvalidKey peerId)]).
Proof.
  intros Hme Hunknown. unfold Chat.addMessage. unfold_C. rewrite Hme.
  destruct Hunknown as [-> | ->]; [done|].
  by destruct (Chat.peerColorMap st !! peerId).
Qed.

Lemma chat_addMessage_known E peerId message me c u st :
  Chat.thisPeerId st = Some me ->
  Chat.peerColorMap st !! peerId = Some c ->
  Chat._peerIdMap st !! peerId = Some u ->
  Chat.addMessage E peerId message st
  = if Chat.handleCommand E message
    then (tt, Chat.set_lastCommand (Some message) st,
          [Chat.HandleCommand message])
    else if bool_decide (Chat._lastPeerIdMessage st = Some peerId)
    then (tt, Chat.set_lastPeerIdMessage (Some peerId) st,
          [Chat.HandleCommand message;
           Chat.AppendLine (Chat.msgContinueTmpl message)])
    else (tt,
          Chat.set_lastPeerIdMessage (Some peerId)
            (Chat.set_calls (Chat.randomCalls st) (S (Chat.dateCalls st)) st),
          [Chat.HandleCommand message;
           Chat.AppendLine
             (Chat.messageTmpl c u peerId message
                (Chat.timestamp (Chat.clock E (Chat.dateCalls st))))]).
Proof.
  intros Hme Hc Hu. unfold Chat.addMessage, Chat._handleChatCommand. unfold_C.
  rewrite Hme, Hc, Hu. cbn.
  destruct (Chat.handleCommand E message); cbn; [done|].
  by destruct (bool_decide (Chat._lastPeerIdMessage st = Some peerId)).
Qed.

(** [addMessage] never touches the name and colour tables, the identity of
    the local user or the notification switch. *)
Lemma chat_addMessage_frame E peerId message st :
  let st1 := (Chat.addMessage E peerId message st).1.2 in
  Chat._peerIdMap st1 = Chat._peerIdMap st
  /\ Chat.peerColorMap st1 = Chat.peerColorMap st
  /\ Chat.colorsUsed st1 = Chat.colorsUsed st
  /\ Chat.thisPeerId st1 = Chat.thisPeerId st
  /\ Chat.showNotifications st1 = Chat.showNotifications st.
Proof.
  destruct (Chat.thisPeerId st) as [me|] eqn:Hme.
  2:{ unfold Chat.addMessage. unfold_C. by rewrite Hme. }
  destruct (Chat.peerColorMap st !! peerId) as [c|] eqn:Hc.
  2:{ rewrite (chat_addMessage_unknown E peerId message me st Hme); auto. }
  destruct (Chat._peerIdMap st !! peerId) as [u|] eqn:Hu.
  2:{ rewrite (chat_addMessage_unknown E peerId message me st Hme); auto. }
  rewrite (chat_addMessage_known E peerId message me c u st Hme Hc Hu).
  destruct (Chat.handleCommand E message); [done|].
  by destruct (bool_decide _).
Qed.

Lemma chat_consistent_frame st st1 :
  Chat._peerIdMap st1 = Chat._peerIdMap st ->
  Chat.peerColorMap st1 = Chat.peerColorMap st ->
  Chat.colorsUsed st1 = Chat.colorsUsed st ->
  Chat.colours_consistent st -> Chat.colours_consistent st1.
Proof.
  intros Hn Hc Hu [H1 H2 H3 H4].
  constructor; rewrite ?Hn, ?Hc, ?Hu; done.
Qed.

Lemma chat_enter_consistent E peerId userName st :
  Chat.colours_consistent st ->
  Chat.colours_consistent (Chat.userEntered E peerId userName st).1.2.
Proof.
  intros Hcons. destruct (Chat.thisPeerId st) as [me|] eqn:Hme.
  2:{ unfold Chat.userEntered. unfold_C. by rewrite Hme. }
  destruct (Chat._generateUniqueColor E peerId st) as [[c st1] evs1] eqn:Hgen.
  rewrite (chat_userEntered_outcome E peerId userName me st c st1 evs1 Hme Hgen).
  cbn [fst snd].
  destruct (chat_generate_cases E peerId st) as (k & c' & _ & [[Hfresh Hrun]|Hrun]);
    rewrite Hrun in Hgen; injection Hgen as <- <- _.
  - destruct Hcons as [H1 H2 H3 H4]. constructor; cbn.
    + apply NoDup_app. split; [done|]. split; [|apply NoDup_singleton].
      intros x Hx Hx'. apply list_elem_of_singleton in Hx' as ->. done.
    + intros p c0 Hp. destruct (decide (p = peerId)) as [->|Hne].
      * rewrite lookup_insert_eq in Hp. injection Hp as <-.
        apply elem_of_app. right. apply list_elem_of_singleton. done.
      * rewrite lookup_insert_ne in Hp by done.
        apply elem_of_app. left. eauto.
    + intros p q c0 Hp Hq.
      destruct (decide (p = peerId)) as [->|Hp'];
        destruct (decide (q = peerId)) as [->|Hq']; try done.
      * rewrite lookup_insert_eq in Hp. injection Hp as <-.
        rewrite lookup_insert_ne in Hq by done. destruct Hfresh. eauto.
      * rewrite lookup_insert_eq in Hq. injection Hq as <-.
        rewrite lookup_insert_ne in Hp by done. destruct Hfresh. eauto.
      * rewrite lookup_insert_ne in Hp, Hq by done. eauto.
    + intros p Hp. destruct (decide (p = peerId)) as [->|Hne].
      * rewrite lookup_insert_eq. by eexists.
      * rewrite lookup_insert_ne in Hp by done.
        rewrite lookup_insert_ne by done. eauto.
  - destruct Hcons as [H1 H2 H3 H4]. constructor; cbn; try done.
    intros p Hp. destruct (decide (p = peerId)) as [->|Hne].
    + rewrite lookup_insert_eq. by eexists.
    + rewrite lookup_insert_ne by done. eauto.
Qed.

Lemma chat_left_consistent peerId st :
  Chat.colours_consistent st ->
  Chat.colours_consistent (Chat.userLeft peerId st).1.2.
Proof.
  intros Hcons. destruct (Chat.thisPeerId st) as [me|] eqn:Hme.
  2:{ unfold Chat.userLeft. unfold_C. by rewrite Hme. }
  destruct (Chat.peerColorMap st !! peerId) as [c|] eqn:Hc.
  2:{ unfold Chat.userLeft. unfold_C. by rewrite Hme, Hc. }
  rewrite (chat_userLeft_outcome peerId me c st Hme Hc). cbn [fst snd].
  destruct Hcons as [H1 H2 H3 H4]. constructor; cbn.
  - by apply chat_splice_first_nodup.
  - intros p c0 Hp. apply lookup_delete_Some in Hp as [Hne Hp].
    apply chat_splice_first_other; [|eauto].
    intros ->. apply Hne. eauto.
  - intros p q c0 Hp Hq.
    apply lookup_delete_Some in Hp as [_ Hp].
    apply lookup_delete_Some in Hq as [_ Hq]. eauto.
  - intros p [c0 Hp]. apply lookup_delete_Some in Hp as [_ Hp]. eauto.
Qed.

Lemma chat_initialize_state E peerId userName fn st :
  (Chat.initialize E peerId userName fn st).1.2
  = (Chat.userEntered E peerId userName
       (Chat.set_identity peerId userName fn st)).1.2.
Proof.
  unfold Chat.initialize, Chat.addNotification, Chat._appendLine. unfold_C. cbn.
  by destruct (Chat.userEntered E peerId userName _) as [[[] st1] evs1].
Qed.

Lemma chat_perform_consistent E a st :
  Chat.colours_consistent st ->
  Chat.colours_consistent (Chat.perform E a st).1.2.
Proof.
  intros Hcons.
  destruct a as [p u fn|perm|p u|p|m|p m|p content]; cbn [Chat.perform].
  - rewrite chat_initialize_state. apply chat_enter_consistent.
    by apply (chat_consistent_frame st).
  - unfold Chat.permissionCallback. unfold_C.
    destruct (String.eqb perm "granted"); [|done].
    by apply (chat_consistent_frame st).
  - by apply chat_enter_consistent.
  - by apply chat_left_consistent.
  - done.
  - destruct (chat_addMessage_frame E p m st) as (? & ? & ? & _).
    by apply (chat_consistent_frame st).
  - unfold Chat.handlePeerMessage.
    destruct (prop content "msg") as [| |b|n|msg|l|o];
      try (by destruct (prop content "cmd")).
    destruct (chat_addMessage_frame E p msg st) as (? & ? & ? & _).
    by apply (chat_consistent_frame st).
Qed.

Lemma chat_run_consistent E acts : forall st,
  Chat.colours_consistent st ->
  Chat.colours_consistent (Chat.run E acts st).1.
Proof.
  induction acts as [|a acts IH]; intros st Hcons; cbn [Chat.run]; [done|].
  pose proof (chat_perform_consistent E a st Hcons) as H1.
  destruct (Chat.perform E a st) as [[[] st1] evs1]. cbn [fst snd] in H1.
  specialize (IH st1 H1).
  by destruct (Chat.run E acts st1) as [st2 evs2].
Qed.

(** X11.  No two peers are recorded with the same colour.  In every state
    the chat reaches from [new Chat(roomName)], whatever is called and
    whatever the random source draws, the colours in [colorsUsed] are
    pairwise distinct, every colour in [peerColorMap] is one of them, two
    different peers never have the same colour there, and every peer that
    has a colour has a name.  The fallback black is never recorded. *)
Theorem chat_colours_unique E roomName acts :
  Chat.colours_consistent (Chat.run E acts (Chat.Chat roomName)).1.
Proof.
  apply chat_run_consistent. constructor; cbn.
  - apply NoDup_nil_2.
  - intros p c Hp. by rewrite lookup_empty in Hp.
  - intros p q c Hp. by rewrite lookup_empty in Hp.
  - intros p [c Hp]. by rewrite lookup_empty in Hp.
Qed.

Lemma chat_userLeft_nocolour peerId me st :
  Chat.thisPeerId st = Some me ->
  Chat.peerColorMap st !! peerId = None ->
  Chat.userLeft peerId st
  = (tt, st,
     [Chat.ErrorMetricLog
        (Chat.LeftInvalidKey (Chat._peerIdMap st !! peerId))]).
Proof.
  intros Hme Hc. unfold Chat.userLeft. unfold_C. by rewrite Hme, Hc.
Qed.

(** X12.  Entering and leaving undo each other on the colour tables: for
    a peer that had no colour, [userEntered] followed by [userLeft] leaves
    [peerColorMap] and [colorsUsed] as they were, whether or not a colour
    was found; only the peer's name stays in [_peerIdMap], which nothing
    ever removes. *)
Theorem chat_enter_leave_round_trip E peerId userName me st :
  Chat.thisPeerId st = Some me ->
  Chat.peerColorMap st !! peerId = None ->
  let st2 := (Chat.userLeft peerId
                (Chat.userEntered E peerId userName st).1.2).1.2 in
  Chat.peerColorMap st2 = Chat.peerColorMap st
  /\ Chat.colorsUsed st2 = Chat.colorsUsed st
  /\ Chat._peerIdMap st2 = <[peerId := userName]> (Chat._peerIdMap st).
Proof.
  intros Hme Hnone st2. subst st2.
  destruct (Chat._generateUniqueColor E peerId st) as [[c st1] evs1] eqn:Hgen.
  rewrite (chat_userEntered_outcome E peerId userName me st c st1 evs1 Hme Hgen).
  cbn [fst snd].
  destruct (chat_generate_cases E peerId st) as (k & c' & _ & [[Hfresh Hrun]|Hrun]);
    rewrite Hrun in Hgen; injection Hgen as <- <- _.
  - rewrite (chat_userLeft_outcome peerId me c');
      [|exact Hme|cbn; apply lookup_insert_eq].
    cbn. split; [|split; [|done]].
    + rewrite delete_insert_eq. by apply delete_id.
    + by apply chat_splice_first_app.
  - rewrite (chat_userLeft_nocolour peerId me); [done|exact Hme|exact Hnone].
Qed.

Lemma chat_enter_leave_round_trip_witness :
  let E := {| Chat.randomHue := fun n => Z.of_nat n;
              Chat.handleCommand := fun _ => false;
              Chat.clock := fun _ => (0, 0, 0)%nat |} in
  let st := (Chat.initialize E "A" "alice" 0%nat (Chat.Chat "room")).1.2 in
  let st2 := (Chat.userLeft "B" (Chat.userEntered E "B" "bob" st).1.2).1.2 in
  Chat.peerColorMap st2 = Chat.peerColorMap st
  /\ Chat.colorsUsed st2 = Chat.colorsUsed st.
Proof.
  intros E st st2.
  destruct (chat_enter_leave_round_trip E "B" "bob" "A" st)
    as (H1 & H2 & _); [reflexivity|reflexivity|].
  split; [exact H1|exact H2].
Defined.



(** ** Messages *)

Lemma chat_lines_app evs1 evs2 :
  Chat.lines (evs1 ++ evs2) = Chat.lines evs1 ++ Chat.lines evs2.
Proof. apply omap_app. Qed.

Lemma chat_run_cons E a acts st :
  Chat.run E (a :: acts) st
  = ((Chat.run E acts (Chat.perform E a st).1.2).1,
     (Chat.perform E a st).2
     ++ (Chat.run E acts (Chat.perform E a st).1.2).2).
Proof.
  cbn [Chat.run]. destruct (Chat.perform E a st) as [[[] st1] evs1].
  cbn [fst snd]. by destruct (Chat.run E acts st1).
Qed.

(** Commands typed by a peer whose last message is the latest one shown do
    not show anything and do not end that peer's turn. *)
Lemma chat_commands_then_message E peerId c u me cmds message : forall st,
  Chat.thisPeerId st = Some me ->
  Chat.peerColorMap st !! peerId = Some c ->
  Chat._peerIdMap st !! peerId = Some u ->
  Chat._lastPeerIdMessage st = Some peerId ->
  Forall (fun m => Chat.handleCommand E m = true) cmds ->
  Chat.handleCommand E message = false ->
  Chat.lines
    (Chat.run E (map (Chat.AddMessage peerId) cmds
                 ++ [Chat.AddMessage peerId message]) st).2
  = [Chat.msgContinueTmpl message].
Proof.
  induction cmds as [|m cmds IH]; intros st Hme Hc Hu Hlast Hcmds Hmsg.
  - cbn [map app]. rewrite chat_run_cons. cbn [Chat.run Chat.perform snd].
    rewrite (chat_addMessage_known E peerId message me c u st Hme Hc Hu).
    rewrite Hmsg, Hlast, bool_decide_eq_true_2 by done. reflexivity.
  - apply Forall_cons in Hcmds as [Hm Hcmds].
    cbn [map app]. rewrite chat_run_cons. cbn [Chat.perform snd].
    rewrite (chat_addMessage_known E peerId m me c u st Hme Hc Hu), Hm.
    cbn [fst snd]. rewrite chat_lines_app.
    change (Chat.lines [Chat.HandleCommand m]) with (@nil Chat.line).
    by apply IH.
Qed.

(** X14.  A peer's turn has one header.  For a peer with a name and a
    colour, a message that is not a command is appended with a header
    (name, colour, time) unless the previous message shown was from the
    same peer; and a following message of that peer, even after any number
    of commands typed in between, is appended as a bare continuation line,
    [addMessage] appending nothing for a command. *)
Theorem chat_one_header_per_turn E peerId c u me first cmds message st :
  Chat.thisPeerId st = Some me ->
  Chat.peerColorMap st !! peerId = Some c ->
  Chat._peerIdMap st !! peerId = Some u ->
  Chat.handleCommand E first = false ->
  Forall (fun m => Chat.handleCommand E m = true) cmds ->
  Chat.handleCommand E message = false ->
  Chat.lines
    (Chat.run E (Chat.AddMessage peerId first
                 :: map (Chat.AddMessage peerId) cmds
                 ++ [Chat.AddMessage peerId message]) st).2
  = [if bool_decide (Chat._lastPeerIdMessage st = Some peerId)
     then Chat.msgContinueTmpl first
     else Chat.messageTmpl c u peerId first
            (Chat.timestamp (Chat.clock E (Chat.dateCalls st)));
     Chat.msgContinueTmpl message].
Proof.
  intros Hme Hc Hu Hfirst Hcmds Hmsg.
  rewrite chat_run_cons. cbn [Chat.perform].
  rewrite (chat_addMessage_known E peerId first me c u st Hme Hc Hu), Hfirst.
  destruct (bool_decide (Chat._lastPeerIdMessage st = Some peerId));
    cbn [fst snd]; rewrite chat_lines_app;
    rewrite (chat_commands_then_message E peerId c u me cmds message);
    done.
Qed.

Lemma chat_one_header_per_turn_witness :
  let E := {| Chat.randomHue := fun n => Z.of_nat n;
              Chat.handleCommand := fun m => String.eqb m "/help";
              Chat.clock := fun _ => (9, 5, 0)%nat |} in
  let st := (Chat.run E [Chat.Initialize "A" "alice" 0%nat;
                         Chat.UserEntered "B" "bob"] (Chat.Chat "room")).1 in
  Chat.lines
    (Chat.run E [Chat.AddMessage "B" "hi"; Chat.AddMessage "B" "/help";
                 Chat.AddMessage "B" "there"] st).2
  = [Chat.messageTmpl "hsl(24, 100%, 25%)" "bob" "B" "hi" "09:05:00";
     Chat.msgContinueTmpl "there"].
Proof.
  intros E st.
  apply (chat_one_header_per_turn E "B" "hsl(24, 100%, 25%)" "bob" "A"
           "hi" ["/help"] "there" st); try reflexivity.
  by repeat constructor.
Defined.

(** ** The palette *)



(** ** Notifications *)

Lemma chat_notifications_app evs1 evs2 :
  Chat.notifications (evs1 ++ evs2)
  = Chat.notifications evs1 ++ Chat.notifications evs2.
Proof. apply omap_app. Qed.

(** What [_generateUniqueColor] leaves alone, and what it logs. *)
Lemma chat_generate_frame E peerId st :
  let out := Chat._generateUniqueColor E peerId st in
  Chat.showNotifications out.1.2 = Chat.showNotifications st
  /\ Chat.roomName out.1.2 = Chat.roomName st
  /\ Chat.notifications out.2 = []
  /\ Chat.lines out.2 = [].
Proof.
  destruct (chat_generate_cases E peerId st)
    as (k & c & _ & [[_ ->] | ->]); done.
Qed.

(** The whole of [initialize]: the two welcome lines, then the local user's
    own entrance, then the collaborators are set up. *)
Lemma chat_initialize_outcome E peerId userName fn st :
  Chat.initialize E peerId userName fn st
  = (tt,
     (Chat.userEntered E peerId userName
        (Chat.set_identity peerId userName fn st)).1.2,
     [Chat.AppendLine
        (Chat.notificationTmpl (Chat.roomName st)
           "Welcome! Feel free to use this to communicate.");
      Chat.AppendLine
        (Chat.notificationTmpl (Chat.roomName st)
           "To see a list of chatroom commands, type /help")]
     ++ (Chat.userEntered E peerId userName
           (Chat.set_identity peerId userName fn st)).2
     ++ [Chat.InitializeCommands; Chat.BindTextEntry; Chat.RequestPermission]).
Proof.
  unfold Chat.initialize, Chat.addNotification, Chat._appendLine. unfold_C. cbn.
  by destruct (Chat.userEntered E peerId userName _) as [[[] st1] evs1].
Qed.

(** A peer's entrance or departure notifies nobody when it is the local
    user's own or when notifications are off. *)
Lemma chat_userEntered_silent E peerId userName st :
  Chat.thisPeerId st = Some peerId \/ Chat.showNotifications st = false ->
  Chat.notifications (Chat.userEntered E peerId userName st).2 = []
  /\ Chat.showNotifications (Chat.userEntered E peerId userName st).1.2
     = Chat.showNotifications st.
Proof.
  intros Hquiet. destruct (Chat.thisPeerId st) as [me|] eqn:Hme.
  2:{ unfold Chat.userEntered. unfold_C. by rewrite Hme. }
  destruct (Chat._generateUniqueColor E peerId st) as [[c st1] evs1] eqn:Hgen.
  rewrite (chat_userEntered_outcome E peerId userName me st c st1 evs1 Hme Hgen).
  destruct (chat_generate_frame E peerId st) as (Hshow & _ & Hnote & _).
  rewrite Hgen in Hshow, Hnote. cbn [fst snd] in *.
  split; [|done]. rewrite !chat_notifications_app, Hnote, Hshow.
  destruct Hquiet as [[= ->] | ->].
  - by rewrite String.eqb_refl.
  - by rewrite andb_false_r.
Qed.

Lemma chat_userLeft_silent peerId st :
  Chat.thisPeerId st = Some peerId \/ Chat.showNotifications st = false ->
  Chat.notifications (Chat.userLeft peerId st).2 = []
  /\ Chat.showNotifications (Chat.userLeft peerId st).1.2
     = Chat.showNotifications st.
Proof.
  intros Hquiet. destruct (Chat.thisPeerId st) as [me|] eqn:Hme.
  2:{ unfold Chat.userLeft. unfold_C. by rewrite Hme. }
  destruct (Chat.peerColorMap st !! peerId) as [c|] eqn:Hc.
  2:{ unfold Chat.userLeft. unfold_C. by rewrite Hme, Hc. }
  rewrite (chat_userLeft_outcome peerId me c st Hme Hc). cbn [fst snd].
  split; [|done]. rewrite !chat_notifications_app.
  destruct Hquiet as [[= ->] | ->].
  - by rewrite String.eqb_refl.
  - by rewrite andb_false_r.
Qed.

Lemma chat_addMessage_silent E peerId message st :
  Chat.notifications (Chat.addMessage E peerId message st).2 = []
  /\ Chat.showNotifications (Chat.addMessage E peerId message st).1.2
     = Chat.showNotifications st.
Proof.
  destruct (chat_addMessage_frame E peerId message st) as (_ & _ & _ & _ & Hshow).
  split; [|exact Hshow].
  destruct (Chat.thisPeerId st) as [me|] eqn:Hme.
  2:{ unfold Chat.addMessage. unfold_C. by rewrite Hme. }
  destruct (Chat.peerColorMap st !! peerId) as [c|] eqn:Hc.
  2:{ by rewrite (chat_addMessage_unknown E peerId message me st Hme);
        [|left]. }
  destruct (Chat._peerIdMap st !! peerId) as [u|] eqn:Hu.
  2:{ by rewrite (chat_addMessage_unknown E peerId message me st Hme);
        [|right]. }
  rewrite (chat_addMessage_known E peerId message me c u st Hme Hc Hu).
  destruct (Chat.handleCommand E message); [done|].
  by destruct (bool_decide _).
Qed.

Lemma chat_perform_silent E a st :
  a <> Chat.Permission "granted" ->
  Chat.showNotifications st = false ->
  Chat.notifications (Chat.perform E a st).2 = []
  /\ Chat.showNotifications (Chat.perform E a st).1.2 = false.
Proof.
  intros Ha Hoff.
  destruct a as [p u fn|perm|p u|p|m|p m|p content]; cbn [Chat.perform].
  - rewrite chat_initialize_outcome. cbn [fst snd].
    destruct (chat_userEntered_silent E p u (Chat.set_identity p u fn st))
      as [Hnote Hshow]; [by left|].
    rewrite !chat_notifications_app, Hnote, Hshow. done.
  - unfold Chat.permissionCallback. unfold_C.
    destruct (String.eqb perm "granted") eqn:Hperm; [|done].
    apply String.eqb_eq in Hperm as ->. done.
  - destruct (chat_userEntered_silent E p u st) as [Hnote Hshow]; [by right|].
    by rewrite Hnote, Hshow.
  - destruct (chat_userLeft_silent p st) as [Hnote Hshow]; [by right|].
    by rewrite Hnote, Hshow.
  - done.
  - destruct (chat_addMessage_silent E p m st) as [Hnote Hshow].
    by rewrite Hnote, Hshow.
  - unfold Chat.handlePeerMessage.
    destruct (prop content "msg") as [| |b|n|msg|l|o];
      try (by destruct (prop content "cmd")).
    destruct (chat_addMessage_silent E p msg st) as [Hnote Hshow].
    by rewrite Hnote, Hshow.
Qed.

Lemma chat_run_silent E acts : forall st,
  Chat.Permission "granted" ∉ acts ->
  Chat.showNotifications st = false ->
  Chat.notifications (Chat.run E acts st).2 = [].
Proof.
  induction acts as [|a acts IH]; intros st Hacts Hoff; [done|].
  apply not_elem_of_cons in Hacts as [Ha Hacts].
  rewrite chat_run_cons. cbn [snd]. rewrite chat_notifications_app.
  destruct (chat_perform_silent E a st) as [-> Hoff1]; [done..|].
  by rewrite IH.
Qed.

(** X16.  No desktop notification without the permission.  Unless the
    callback of [Notification.requestPermission] has been called with
    ['granted'], no call made to the chat shows a notification, whoever
    enters or leaves. *)
Theorem chat_no_notification_without_permission E roomName acts :
  Chat.Permission "granted" ∉ acts ->
  Chat.notifications (Chat.run E acts (Chat.Chat roomName)).2 = [].
Proof. intros Hacts. by apply chat_run_silent. Qed.

Lemma chat_no_notification_without_permission_witness :
  Chat.notifications
    (Chat.run {| Chat.randomHue := fun n => Z.of_nat n;
                 Chat.handleCommand := fun _ => false;
                 Chat.clock := fun _ => (0, 0, 0)%nat |}
       [Chat.Initialize "A" "alice" 0%nat; Chat.Permission "denied";
        Chat.UserEntered "B" "bob"; Chat.UserLeft "B"]
       (Chat.Chat "room")).2 = [].
Proof.
  apply chat_no_notification_without_permission.
  intros Hin. repeat (apply elem_of_cons in Hin as [Hin|Hin]; [discriminate Hin|]).
  by apply elem_of_nil in Hin.
Defined.

(** X17.  The local user's own events are never notified, whatever the
    permission: [initialize] shows the two welcome lines and the user's own
    entrance and no notification, and neither do later calls of
    [userEntered] and [userLeft] for the local user's own peer id. *)
Theorem chat_own_events_not_notified E me userName fn st :
  (exists c,
     Chat.lines (Chat.initialize E me userName fn st).2
     = [Chat.notificationTmpl (Chat.roomName st)
          "Welcome! Feel free to use this to communicate.";
        Chat.notificationTmpl (Chat.roomName st)
          "To see a list of chatroom commands, type /help";
        Chat.userEnteredTmpl c userName me (Chat.roomName st)])
  /\ Chat.notifications (Chat.initialize E me userName fn st).2 = []
  /\ (Chat.thisPeerId st = Some me ->
      Chat.notifications (Chat.userEntered E me userName st).2 = []
      /\ Chat.notifications (Chat.userLeft me st).2 = []).
Proof.
  rewrite chat_initialize_outcome. cbn [snd].
  set (st0 := Chat.set_identity me userName fn st).
  destruct (chat_userEntered_silent E me userName st0) as [Hnote _];
    [by left|].
  split; [|split].
  - destruct (Chat._generateUniqueColor E me st0) as [[c st1] evs1] eqn:Hgen.
    exists c.
    rewrite (chat_userEntered_outcome E me userName me st0 c st1 evs1 eq_refl Hgen).
    destruct (chat_generate_frame E me st0) as (_ & Hroom & _ & Hlines).
    rewrite Hgen in Hroom, Hlines. cbn [fst snd] in *.
    rewrite !chat_lines_app, Hlines, Hroom, String.eqb_refl. done.
  - rewrite !chat_notifications_app, Hnote. done.
  - intros Hme. split.
    + by apply chat_userEntered_silent; left.
    + by apply chat_userLeft_silent; left.
Qed.

Lemma chat_own_events_not_notified_witness :
  let E := {| Chat.randomHue := fun n => Z.of_nat n;
              Chat.handleCommand := fun _ => false;
              Chat.clock := fun _ => (0, 0, 0)%nat |} in
  let st := (Chat.run E [Chat.Initialize "A" "alice" 0%nat;
                         Chat.Permission "granted"] (Chat.Chat "room")).1 in
  Chat.showNotifications st = true
  /\ Chat.notifications (Chat.userEntered E "A" "alice" st).2 = []
  /\ Chat.notifications (Chat.userLeft "A" st).2 = [].
Proof.
  intros E st. split; [reflexivity|].
  exact (proj2 (proj2 (chat_own_events_not_notified E "A" "alice" 0%nat st))
           eq_refl).
Defined.

(** ** Time stamps *)

Lemma chat_pad_two_digits n : (n < 60)%nat -> Chat.pad n = Chat.two_digits n.
Proof.
  intros Hn.
  do 60 (destruct n as [|n]; [vm_compute; reflexivity|]). lia.
Qed.

(** X18.  The time stamp in a message header is always [HH:MM:SS]: for the
    hours, minutes and seconds a [Date] can give, each field is written with
    exactly two decimal digits, a leading zero being added below ten. *)
Theorem chat_timestamp_format E st h m s :
  Chat.clock E (Chat.dateCalls st) = (h, m, s) ->
  (h < 24)%nat -> (m < 60)%nat -> (s < 60)%nat ->
  (Chat.getTimeStamp E st).1.1
  = Chat.two_digits h +:+ ":" +:+ Chat.two_digits m +:+ ":" +:+ Chat.two_digits s
  /\ String.length (Chat.getTimeStamp E st).1.1 = 8%nat.
Proof.
  intros Hclock Hh Hm Hs. unfold Chat.getTimeStamp, Chat.timestamp.
  cbn [fst snd]. rewrite Hclock. cbn [fst snd].
  rewrite !chat_pad_two_digits by lia. done.
Qed.

Lemma chat_timestamp_format_witness :
  let E := {| Chat.randomHue := fun n => Z.of_nat n;
              Chat.handleCommand := fun _ => false;
              Chat.clock := fun _ => (9, 5, 30)%nat |} in
  (Chat.getTimeStamp E (Chat.Chat "room")).1.1 = "09:05:30".
Proof.
  intros E.
  exact (proj1 (chat_timestamp_format E (Chat.Chat "room") 9 5 30 eq_refl
                  ltac:(lia) ltac:(lia) ltac:(lia))).
Defined.

(** ** Before [initialize] *)

Lemma chat_perform_uninitialised E a st :
  Chat.thisPeerId st = None ->
  Chat.room_event a = true ->
  (Chat.perform E a st).1.2 = st
  /\ Chat.lines (Chat.perform E a st).2 = []
  /\ Chat.notifications (Chat.perform E a st).2 = []
  /\ length (Chat.perform E a st).2 = 1%nat.
Proof.
  intros Hme Ha.
  destruct a as [p u fn|perm|p u|p|m|p m|p content]; try discriminate Ha;
    cbn [Chat.perform].
  - unfold Chat.userEntered. unfold_C. by rewrite Hme.
  - unfold Chat.userLeft. unfold_C. by rewrite Hme.
  - unfold Chat.addMessage. unfold_C. by rewrite Hme.
  - unfold Chat.handlePeerMessage. cbn [Chat.room_event] in Ha.
    destruct (prop content "msg") as [| |b|n|msg|l|o]; try discriminate Ha.
    unfold Chat.addMessage. unfold_C. by rewrite Hme.
Qed.

Lemma chat_run_uninitialised E acts : forall st,
  Chat.thisPeerId st = None ->
  forallb Chat.room_event acts = true ->
  (Chat.run E acts st).1 = st
  /\ Chat.lines (Chat.run E acts st).2 = []
  /\ Chat.notifications (Chat.run E acts st).2 = []
  /\ length (Chat.run E acts st).2 = length acts.
Proof.
  induction acts as [|a acts IH]; intros st Hme Hacts; [done|].
  cbn [forallb] in Hacts. apply andb_true_iff in Hacts as [Ha Hacts].
  rewrite chat_run_cons. cbn [fst snd].
  destruct (chat_perform_uninitialised E a st Hme Ha) as (-> & Hl & Hn & Hlen).
  destruct (IH st Hme Hacts) as (-> & Hl' & Hn' & Hlen').
  rewrite chat_lines_app, chat_notifications_app, length_app, Hl, Hn, Hl', Hn'.
  cbn [length]. split; [done|split; [done|split; [done|lia]]].
Qed.

(** X19.  What happens in the room before [initialize] is lost.  Until
    [initialize] has set the local peer id, every entrance, departure and
    message only writes one error line: the chat's state is unchanged and
    nothing is shown, so a peer that entered before [initialize] has no name
    and no colour afterwards. *)
Theorem chat_events_before_initialize_lost E roomName acts me userName fn :
  forallb Chat.room_event acts = true ->
  Chat.run E (acts ++ [Chat.Initialize me userName fn]) (Chat.Chat roomName)
  = ((Chat.initialize E me userName fn (Chat.Chat roomName)).1.2,
     (Chat.run E acts (Chat.Chat roomName)).2
     ++ (Chat.initialize E me userName fn (Chat.Chat roomName)).2)
  /\ Chat.lines (Chat.run E acts (Chat.Chat roomName)).2 = []
  /\ length (Chat.run E acts (Chat.Chat roomName)).2 = length acts
  /\ (Chat.getPeerIdToUserNameMap
        (Chat.run E (acts ++ [Chat.Initialize me userName fn])
           (Chat.Chat roomName)).1).1.1
     = {[ me := userName ]}.
Proof.
  unfold Chat.getPeerIdToUserNameMap, Chat.gets. cbn [fst].
  intros Hacts.
  destruct (chat_run_uninitialised E acts (Chat.Chat roomName) eq_refl Hacts)
    as (Hst & Hl & _ & Hlen).
  assert (Hrun : forall l st,
    Chat.run E (l ++ [Chat.Initialize me userName fn]) st
    = ((Chat.initialize E me userName fn (Chat.run E l st).1).1.2,
       (Chat.run E l st).2
       ++ (Chat.initialize E me userName fn (Chat.run E l st).1).2)).
  { induction l as [|a l IH]; intros st.
    - cbn [app Chat.run Chat.perform fst snd].
      destruct (Chat.initialize E me userName fn st) as [[[] st1] evs1].
      cbn. by rewrite app_nil_r.
    - rewrite <- app_comm_cons, !chat_run_cons, IH. cbn [fst snd].
      by rewrite app_assoc. }
  rewrite Hrun, Hst. split; [done|split; [done|split; [done|]]].
  cbn [fst]. rewrite chat_initialize_state.
  destruct (Chat._generateUniqueColor E me
              (Chat.set_identity me userName fn (Chat.Chat roomName)))
    as [[c st1] evs1] eqn:Hgen.
  rewrite (chat_userEntered_outcome E me userName me
             (Chat.set_identity me userName fn (Chat.Chat roomName))
             c st1 evs1 eq_refl Hgen).
  cbn [fst snd Chat._peerIdMap Chat.set_peerIdMap].
  destruct (chat_generate_cases E me
              (Chat.set_identity me userName fn (Chat.Chat roomName)))
    as (k & c' & _ & [[_ Hg] | Hg]); rewrite Hg in Hgen;
    injection Hgen as <- <- <-; cbn; by rewrite insert_empty.
Qed.

Lemma chat_events_before_initialize_lost_witness :
  (Chat.getPeerIdToUserNameMap
     (Chat.run {| Chat.randomHue := fun n => Z.of_nat n;
                  Chat.handleCommand := fun _ => false;
                  Chat.clock := fun _ => (0, 0, 0)%nat |}
        ([Chat.UserEntered "B" "bob"; Chat.AddMessage "B" "hi"]
         ++ [Chat.Initialize "A" "alice" 0%nat])
        (Chat.Chat "room")).1).1.1
  = {[ "A" := "alice" ]}.
Proof.
  exact (proj2 (proj2 (proj2
           (chat_events_before_initialize_lost
              {| Chat.randomHue := fun n => Z.of_nat n;
                 Chat.handleCommand := fun _ => false;
                 Chat.clock := fun _ => (0, 0, 0)%nat |} "room"
              [Chat.UserEntered "B" "bob"; Chat.AddMessage "B" "hi"]
              "A" "alice" 0%nat eq_refl)))).
Defined.

(** ** Turns *)

(** A peer that has a name and a colour and wrote the last message keeps
    all three over an interlude. *)
Lemma chat_perform_interlude E p a st :
  is_Some (Chat.thisPeerId st) ->
  is_Some (Chat.peerColorMap st !! p) ->
  is_Some (Chat._peerIdMap st !! p) ->
  Chat.interlude p a = true ->
  let st1 := (Chat.perform E a st).1.2 in
  is_Some (Chat.thisPeerId st1)
  /\ is_Some (Chat.peerColorMap st1 !! p)
  /\ is_Some (Chat._peerIdMap st1 !! p)
  /\ Chat._lastPeerIdMessage st1 = Chat._lastPeerIdMessage st.
Proof.
  intros [me Hme] Hc Hu Ha st1. subst st1.
  destruct a as [q u fn|perm|q u|q|m|q m|q content]; try discriminate Ha;
    cbn [Chat.perform].
  - unfold Chat.permissionCallback. unfold_C.
    by destruct (String.eqb perm "granted"); cbn; rewrite ?Hme.
  - destruct (Chat._generateUniqueColor E q st) as [[c st1] evs1] eqn:Hgen.
    rewrite (chat_userEntered_outcome E q u me st c st1 evs1 Hme Hgen).
    cbn [fst snd].
    destruct (chat_generate_cases E q st) as (k & c' & _ & [[_ Hg] | Hg]);
      rewrite Hg in Hgen; injection Hgen as <- <- <-; cbn; rewrite ?Hme;
      (split; [done|]); (split; [|split; [|done]]);
      try done;
      (destruct (decide (q = p)) as [->|Hne];
       [rewrite lookup_insert_eq | rewrite lookup_insert_ne by done]; done).
  - cbn [Chat.interlude] in Ha. apply negb_true_iff, String.eqb_neq in Ha.
    destruct (Chat.peerColorMap st !! q) as [c|] eqn:Hq.
    + rewrite (chat_userLeft_outcome q me c st Hme Hq). cbn.
      rewrite Hme, lookup_delete_ne by done. done.
    + rewrite (chat_userLeft_nocolour q me st Hme Hq). cbn. by rewrite Hme.
  - unfold Chat.addNotification, Chat._appendLine. unfold_C. cbn.
    by rewrite Hme.
Qed.

Lemma chat_run_interlude E p acts : forall st,
  is_Some (Chat.thisPeerId st) ->
  is_Some (Chat.peerColorMap st !! p) ->
  is_Some (Chat._peerIdMap st !! p) ->
  forallb (Chat.interlude p) acts = true ->
  let st1 := (Chat.run E acts st).1 in
  is_Some (Chat.thisPeerId st1)
  /\ is_Some (Chat.peerColorMap st1 !! p)
  /\ is_Some (Chat._peerIdMap st1 !! p)
  /\ Chat._lastPeerIdMessage st1 = Chat._lastPeerIdMessage st.
Proof.
  induction acts as [|a acts IH]; intros st Hme Hc Hu Hacts; [done|].
  cbn [forallb] in Hacts. apply andb_true_iff in Hacts as [Ha Hacts].
  cbn zeta. rewrite chat_run_cons. cbn [fst].
  destruct (chat_perform_interlude E p a st Hme Hc Hu Ha)
    as (Hme1 & Hc1 & Hu1 & Hlast1).
  destruct (IH _ Hme1 Hc1 Hu1 Hacts) as (Hme2 & Hc2 & Hu2 & Hlast2).
  by rewrite <- Hlast1, <- Hlast2.
Qed.

(** X20.  Only a message ends a turn.  The peer that wrote the last message
    shown keeps the turn while others enter or leave and notifications are
    added, although each of these appends a line of its own: the peer's next
    message is appended as a bare continuation line, without name or
    time. *)
Theorem chat_turn_survives_interlude E p acts message st :
  is_Some (Chat.thisPeerId st) ->
  is_Some (Chat.peerColorMap st !! p) ->
  is_Some (Chat._peerIdMap st !! p) ->
  Chat._lastPeerIdMessage st = Some p ->
  forallb (Chat.interlude p) acts = true ->
  Chat.handleCommand E message = false ->
  Chat.lines (Chat.addMessage E p message (Chat.run E acts st).1).2
  = [Chat.msgContinueTmpl message].
Proof.
  intros Hme Hc Hu Hlast Hacts Hmsg.
  destruct (chat_run_interlude E p acts st Hme Hc Hu Hacts)
    as ([me Hme1] & [c Hc1] & [u Hu1] & Hlast1).
  rewrite (chat_addMessage_known E p message me c u _ Hme1 Hc1 Hu1), Hmsg.
  rewrite Hlast1, Hlast, bool_decide_eq_true_2 by done. done.
Qed.

Lemma chat_turn_survives_interlude_witness :
  let E := {| Chat.randomHue := fun n => Z.of_nat n;
              Chat.handleCommand := fun _ => false;
              Chat.clock := fun _ => (0, 0, 0)%nat |} in
  let st := (Chat.run E [Chat.Initialize "A" "alice" 0%nat;
                         Chat.UserEntered "B" "bob";
                         Chat.AddMessage "B" "hi"] (Chat.Chat "room")).1 in
  let acts := [Chat.UserEntered "C" "carol"; Chat.AddNotification "notice";
               Chat.UserLeft "C"] in
  length (Chat.lines (Chat.run E acts st).2) = 3%nat
  /\ Chat.lines (Chat.addMessage E "B" "there" (Chat.run E acts st).1).2
     = [Chat.msgContinueTmpl "there"].
Proof.
  intros E st acts. split; [reflexivity|].
  apply (chat_turn_survives_interlude E "B" acts "there" st);
    try reflexivity; vm_compute; eauto.
Defined.

(** * Properties of the navigation bar *)

Lemma navbar_click_outcome b :
  NavBar.click b
  = ((NavBar.toggle b).1,
     NavBar._paintColor (NavBar.toggle b).1
     ++ [if negb (NavBar.enabled b)
         then match NavBar.enabledFn b with
              | Some f => NavBar.Call f
              | None =>
                  NavBar.ErrorMetricLog
                    (NavBar.id b
                     +:+ ".click => StatefulButton.enabledFn not defined")
              end
         else match NavBar.disabledFn b with
              | Some f => NavBar.Call f
              | None =>
                  NavBar.ErrorMetricLog
                    (NavBar.id b
                     +:+ ".click => StatefulButton.disabledFn not defined")
              end;
         NavBar.Blur (NavBar.id b)])
  /\ NavBar.enabled (NavBar.toggle b).1 = negb (NavBar.enabled b)
  /\ NavBar.id (NavBar.toggle b).1 = NavBar.id b
  /\ NavBar.enabledFn (NavBar.toggle b).1 = NavBar.enabledFn b
  /\ NavBar.disabledFn (NavBar.toggle b).1 = NavBar.disabledFn b.
Proof.
  unfold NavBar.click, NavBar.toggle, NavBar.isEnabled. cbn.
  by destruct (NavBar.enabled b).
Qed.

Lemma navbar_clicks_succ n b :
  NavBar.clicks (S n) b
  = ((NavBar.clicks n (NavBar.click b).1).1,
     (NavBar.click b).2 ++ (NavBar.clicks n (NavBar.click b).1).2).
Proof.
  cbn [NavBar.clicks]. destruct (NavBar.click b) as [b1 evs1]. cbn [fst snd].
  by destruct (NavBar.clicks n b1).
Qed.

Lemma navbar_calls_app evs1 evs2 :
  NavBar.calls (evs1 ++ evs2) = NavBar.calls evs1 ++ NavBar.calls evs2.
Proof. apply omap_app. Qed.

Lemma navbar_fills_app i evs1 evs2 :
  NavBar.fills i (evs1 ++ evs2) = NavBar.fills i evs1 ++ NavBar.fills i evs2.
Proof. apply omap_app. Qed.

(** X22.  A stateful button acts like a checkbox.  With both handlers set,
    [n] clicks leave the button enabled exactly when [n] is odd and it was
    disabled, or [n] is even and it was enabled; each click calls exactly
    one handler, the one of the state the click produced, so the two
    handlers are called in turn, starting with [enabledFn] on a disabled
    button and with [disabledFn] on an enabled one. *)
Theorem stateful_button_alternates e d n b :
  NavBar.enabledFn b = Some e ->
  NavBar.disabledFn b = Some d ->
  NavBar.isEnabled (NavBar.clicks n b).1 = xorb (Nat.odd n) (NavBar.enabled b)
  /\ NavBar.calls (NavBar.clicks n b).2
     = map (fun i => if xorb (Nat.odd i) (NavBar.enabled b) then e else d)
         (seq 1 n).
Proof.
  revert b.
  induction n as [|n IH]; intros b He Hd.
  - by split.
  - destruct (navbar_click_outcome b) as (Hclick & Hen & _ & He1 & Hd1).
    rewrite navbar_clicks_succ, Hclick. cbn [fst snd].
    destruct (IH (NavBar.toggle b).1) as [IH1 IH2]; [congruence..|].
    assert (Hcall :
      NavBar.calls
        (NavBar._paintColor (NavBar.toggle b).1
         ++ [if negb (NavBar.enabled b) then NavBar.Call e else NavBar.Call d;
             NavBar.Blur (NavBar.id b)])
      = [if negb (NavBar.enabled b) then e else d])
      by (by destruct (NavBar.enabled b)).
    rewrite IH1, navbar_calls_app, IH2, Hen, He, Hd, Hcall. split.
    + rewrite Nat.odd_succ, <- Nat.negb_odd.
      by destruct (Nat.odd n), (NavBar.enabled b).
    + cbn [seq map]. rewrite <- (seq_shift n 1), map_map.
      cbn [app]. f_equal; [by destruct (NavBar.enabled b)..|].
      apply map_ext. intros i.
      rewrite Nat.odd_succ, <- Nat.negb_odd.
      by destruct (Nat.odd i), (NavBar.enabled b).
Qed.

Lemma stateful_button_alternates_witness :
  let b := NavBar.handle 1%nat 2%nat
             (NavBar.newStatefulButton "#micBtn" (Some true)).1 in
  NavBar.isEnabled (NavBar.clicks 3 b).1 = false
  /\ NavBar.calls (NavBar.clicks 3 b).2 = [2%nat; 1%nat; 2%nat].
Proof.
  intros b.
  exact (stateful_button_alternates 1%nat 2%nat 3 b eq_refl eq_refl).
Defined.

Lemma navbar_fills_paint i b :
  NavBar.id b = i ->
  NavBar.fills i (NavBar._paintColor b) = [NavBar.colour (NavBar.enabled b)].
Proof. intros <-. cbn. by rewrite String.eqb_refl. Qed.

Lemma navbar_clicks_painted n : forall b,
  NavBar.id (NavBar.clicks n b).1 = NavBar.id b
  /\ last (NavBar.fills (NavBar.id b)
             (NavBar._paintColor b ++ (NavBar.clicks n b).2))
     = Some (NavBar.colour (NavBar.isEnabled (NavBar.clicks n b).1)).
Proof.
  induction n as [|n IH]; intros b.
  - cbn. by rewrite String.eqb_refl.
  - destruct (navbar_click_outcome b) as (Hclick & _ & Hid & _ & _).
    rewrite navbar_clicks_succ, Hclick. cbn [fst snd].
    destruct (IH (NavBar.toggle b).1) as [IH1 IH2].
    split; [congruence|].
    rewrite <- IH2, Hid, !navbar_fills_app.
    rewrite (navbar_fills_paint (NavBar.id b) b eq_refl).
    rewrite (navbar_fills_paint (NavBar.id b) (NavBar.toggle b).1 Hid).
    match goal with
    | |- context [NavBar.fills ?i [?c; NavBar.Blur ?j]] =>
        assert (Hr : NavBar.fills i [c; NavBar.Blur j] = [])
          by (by destruct (NavBar.enabled b), (NavBar.enabledFn b),
                   (NavBar.disabledFn b));
        rewrite Hr
    end.
    reflexivity.
Qed.

(** X23.  The icon always shows the state.  From its construction on, after
    any number of clicks, the colour last painted on a stateful button is
    green when the button is enabled and red when it is disabled; a button
    constructed without [enabled] starts disabled. *)
Theorem stateful_button_colour_shows_state i e n :
  let made := NavBar.newStatefulButton i e in
  let clicked := NavBar.clicks n made.1 in
  last (NavBar.fills i (made.2 ++ clicked.2))
  = Some (NavBar.colour (NavBar.isEnabled clicked.1))
  /\ NavBar.isEnabled clicked.1
     = xorb (Nat.odd n) (match e with Some e => e | None => false end).
Proof.
  intros made clicked. subst made clicked. split.
  - destruct (navbar_clicks_painted n (NavBar.newStatefulButton i e).1)
      as [_ Hlast].
    cbn [NavBar.newStatefulButton fst snd NavBar.id] in *.
    rewrite <- Hlast. rewrite <- app_assoc. reflexivity.
  - assert (H : forall k b, NavBar.isEnabled (NavBar.clicks k b).1
                            = xorb (Nat.odd k) (NavBar.enabled b)).
    { induction k as [|k IH]; intros b.
      - done.
      - destruct (navbar_click_outcome b) as (Hclick & Hen & _).
        rewrite navbar_clicks_succ, Hclick. cbn [fst].
        rewrite IH, Hen, Nat.odd_succ, <- Nat.negb_odd.
        by destruct (Nat.odd k), (NavBar.enabled b). }
    apply H.
Qed.
